(** * Transportation model builder and sensitivity report (src/main.py)

    A shallow embedding of [solve_problem_using_ortools_linear_solver] and of
    the two narration functions of src/main.py, followed by the properties
    of the specification that concern them.

    Conventions of the embedding.
    - Location codes and identifiers are [string]s, one [ascii] per Python
      character.
    - JSON objects and Python dicts are [gmap]s; a dict comprehension is a
      left fold of inserts, so a later item overwrites an earlier one.
    - A Python exception is a [Raise] result; [d[k]] on a dict is a lookup
      that raises [KeyError] when the key is missing.  A run that raises is
      modelled by its exception alone.
    - Numbers of the input file are rationals [Q].  The numbers handed back
      by the solver are IEEE doubles: they are modelled by [xnum], the exact
      rational value of a finite double, the two infinities, or NaN, with
      the comparisons of IEEE (NaN equals nothing, [-0.0 == 0]).  An
      integer of the input beyond the largest double, which Python refuses
      to convert, is outside the model: the statements on the errors of the
      whole program assume [numbers_in_double_range].
    - The LP engine itself is an external collaborator: the model records
      what the program asks of it ([NumVar], [Add], [Minimize]) and the
      report is a function of what the engine hands back.
    - What the program writes is a list of [output]s: the arguments of each
      [print] call, and each printed data frame as the data it is built
      from.  Of pandas the model keeps what can stop the program: the
      [TypeError] of [MultiIndex.from_tuples] on no tuple, and the
      [KeyError] of a column of a frame built from no record. *)

From Stdlib Require Import QArith Qround Qabs Ascii.
From Stdlib Require String.
From stdpp Require Import gmap strings list fin_maps.

Local Open Scope Z_scope.
#[local] Set Warnings "-clear-no-such-hyp".

(** ** Exceptions *)

Inductive exn :=
  | KeyError
  | IndexError
  | ValueError
  | TypeError.

Inductive result (A : Type) :=
  | Ok (a : A)
  | Raise (e : exn).
Arguments Ok {A} a.
Arguments Raise {A} e.

Global Instance result_ret : MRet result := λ A a, Ok a.
Global Instance result_bind : MBind result := λ A B f m,
  match m with
  | Ok a => f a
  | Raise e => Raise e
  end.

(** [d[k]] *)
Definition getitem `{Countable K} {V} (d : gmap K V) (k : K) : result V :=
  match d !! k with
  | Some v => Ok v
  | None => Raise KeyError
  end.

(** [{k: v for (k, v) in items}]: the last item with a given key wins. *)
Definition dict_of_items `{Countable K} {V} (items : list (K * V)) : gmap K V :=
  foldl (λ d kv, <[kv.1 := kv.2]> d) ∅ items.

(** ** Python strings *)

Module PyStr.

(** A slice bound [i] of a sequence of length [n], as [PySlice_AdjustIndices]
    clamps it: a negative bound counts from the end. *)
Definition adjust (n i : Z) : Z :=
  if i <? 0 then Z.max (i + n) 0 else Z.min i n.

(** [s[lo:hi]]; [None] is an omitted bound. *)
Definition slice (s : string) (lo hi : option Z) : string :=
  let n := Z.of_nat (String.length s) in
  let a := adjust n (default 0 lo) in
  let b := adjust n (default n hi) in
  String.substring (Z.to_nat a) (Z.to_nat (b - a)) s.

Definition digit_of_ascii (c : ascii) : option Z :=
  let n := Z.of_nat (Ascii.nat_of_ascii c) in
  if (48 <=? n) && (n <=? 57) then Some (n - 48) else None.

Fixpoint digits (acc : Z) (s : string) : option Z :=
  match s with
  | EmptyString => Some acc
  | String c s' =>
      match digit_of_ascii c with
      | Some d => digits (10 * acc + d) s'
      | None => None
      end
  end.

(** [int(s)] on a string of decimal digits; anything else, the empty
    string included, is a [ValueError].  (The one call site passes a slice
    of at most one character, where the sign, blank and underscore forms
    that [int] also reads cannot occur.) *)
Definition int (s : string) : result Z :=
  match s with
  | EmptyString => Raise ValueError
  | _ => match digits 0 s with
         | Some n => Ok n
         | None => Raise ValueError
         end
  end.

(** [x in l] for a list of strings. *)
Definition contains (l : list string) (x : string) : bool :=
  bool_decide (x ∈ l).

End PyStr.

(** ** Numbers *)

Inductive xnum :=
  | Fin (q : Q)
  | PInf
  | NInf
  | NaN.

Module X.

Definition zero : xnum := Fin 0.

(** [a - b] *)
Definition sub (a b : xnum) : xnum :=
  match a, b with
  | NaN, _ | _, NaN => NaN
  | Fin x, Fin y => Fin (x - y)
  | Fin _, PInf => NInf
  | Fin _, NInf => PInf
  | PInf, PInf => NaN
  | PInf, _ => PInf
  | NInf, NInf => NaN
  | NInf, _ => NInf
  end.

(** [a == b] *)
Definition eqb (a b : xnum) : bool :=
  match a, b with
  | Fin x, Fin y => Qeq_bool x y
  | PInf, PInf | NInf, NInf => true
  | _, _ => false
  end.

(** [a < b] *)
Definition ltb (a b : xnum) : bool :=
  match a, b with
  | NaN, _ | _, NaN => false
  | Fin x, Fin y => negb (Qle_bool y x)
  | NInf, NInf | PInf, _ | _, NInf => false
  | NInf, _ | _, PInf => true
  end.

(** [abs(a)] *)
Definition abs (a : xnum) : xnum :=
  match a with
  | Fin x => Fin (Qabs x)
  | PInf | NInf => PInf
  | NaN => NaN
  end.

(** The integer nearest to [q], ties to the even one. *)
Definition round_half_even (q : Q) : Z :=
  let f := Qfloor q in
  match (q - inject_Z f ?= 1 # 2)%Q with
  | Lt => f
  | Gt => f + 1
  | Eq => if Z.even f then f else f + 1
  end.

(** [round(a, 2)]: the decimal with two places nearest to the exact value
    of [a], ties to even; infinities and NaN are returned unchanged.  The
    double that Python returns is the one nearest to that decimal, so it
    has the same sign and is zero exactly when the decimal is. *)
Definition round2 (a : xnum) : xnum :=
  match a with
  | Fin x => Fin (inject_Z (round_half_even (x * 100)) / 100)
  | _ => a
  end.

End X.

(** ** Input data *)

(** A route is the pair [tuple(item["index"])] of a source code and a
    customer code. *)
Abbreviation route := (string * string)%type.

(** The dictionary that [json.load] returns, one field per key the program
    reads.  The two parameter tables are lists of items, each with its
    ["index"] and its ["value"]. *)
Record data := {
  data_sSources : list string;
  data_sCustomers : list string;
  data_pSourceProduction : gmap string Q;
  data_pCustomerDemand : gmap string Q;
  data_pTransportationCosts : list (route * Q);
  data_pFixedTransportation : list (route * Q)
}.

(** The truth value of a number: anything but zero. *)
Definition truthy (v : Q) : bool := negb (Qeq_bool v 0).

(** ** The solver object *)

(** What [NumVar(lb, ub, name)] declares. *)
Record variable := {
  v_lb : xnum;
  v_ub : xnum;
  v_name : string
}.

Inductive sense := LE | GE | EQ.

(** A row of the solver, as [Add] records it: the summands of the
    left-hand side (handles of variables), the comparison with the bound,
    and the name.  [LE] is a row without lower bound, [GE] a row without
    upper bound, and [EQ] a row whose two bounds are the bound. *)
Record constraint := {
  c_expr : list nat;
  c_sense : sense;
  c_bound : Q;
  c_name : string
}.

(** The solver: variables and constraints in creation order, and the terms
    [cost * variable] of the objective.  A variable's handle is its position
    in [variables]. *)
Record solver := {
  variables : list variable;
  constraints : list constraint;
  objective : list (Q * nat)
}.

Definition CreateSolver : solver :=
  {| variables := []; constraints := []; objective := [] |}.

Definition NumVar (lb ub : xnum) (name : string) (sv : solver) : nat * solver :=
  (length (variables sv),
   {| variables := variables sv ++ [{| v_lb := lb; v_ub := ub; v_name := name |}];
      constraints := constraints sv;
      objective := objective sv |}).

Definition Add (c : constraint) (sv : solver) : solver :=
  {| variables := variables sv;
     constraints := constraints sv ++ [c];
     objective := objective sv |}.

(** The row that [Add] records for a Python bool: [0 <= () <= 0] for
    [True] and [1 <= () <= 1] for [False], both with an empty left-hand
    side. *)
Definition bool_row (b : bool) (name : string) : constraint :=
  {| c_expr := []; c_sense := EQ; c_bound := if b then 0 else 1;
     c_name := name |}.

(** The row of [Add(sum(...) <= bound, name)].  The sum of no variable is
    the integer [0], and its comparison with the bound is a bool; a sum
    with a summand is a linear expression, and its comparison a linear
    constraint. *)
Definition row_le (lhs : list nat) (bound : Q) (name : string) : constraint :=
  match lhs with
  | [] => bool_row (Qle_bool 0 bound) name
  | _ => {| c_expr := lhs; c_sense := LE; c_bound := bound; c_name := name |}
  end.

(** The row of [Add(sum(...) >= bound, name)]. *)
Definition row_ge (lhs : list nat) (bound : Q) (name : string) : constraint :=
  match lhs with
  | [] => bool_row (Qle_bool bound 0) name
  | _ => {| c_expr := lhs; c_sense := GE; c_bound := bound; c_name := name |}
  end.

Definition Minimize (terms : list (Q * nat)) (sv : solver) : solver :=
  {| variables := variables sv;
     constraints := constraints sv;
     objective := terms |}.

(** [for a in l: body], threading the state and stopping at the first
    exception. *)
Fixpoint for_ {A S} (l : list A) (body : A → S → result S) (st : S) : result S :=
  match l with
  | [] => Ok st
  | a :: l' => st' ← body a st; for_ l' body st'
  end.

(** ** Identifiers *)

Definition variable_name (s c : string) : string :=
  "quantity_in_tons_" +:+ s +:+ "_" +:+ c.

Definition production_name (s : string) : string := "c01_production_" +:+ s.

Definition demand_name (c : string) : string := "c02_demand_" +:+ c.

Definition fixed_name (s c : string) : string :=
  "c03_fixed_" +:+ s +:+ "_" +:+ c.

(** ** Model construction *)

(** One step of the dict comprehension of decision variables: the variable
    is declared and its handle stored under the pair. *)
Definition new_variable (acc : gmap route nat * solver) (sc : route)
    : gmap route nat * solver :=
  let '(v, sv) := NumVar X.zero PInf (variable_name sc.1 sc.2) acc.2 in
  (<[sc := v]> acc.1, sv).

Section Builder.

Variable d : data.

Let sSources := data_sSources d.
Let sCustomers := data_sCustomers d.
Let pSourceProduction := data_pSourceProduction d.
Let pCustomerDemand := data_pCustomerDemand d.

Definition pTransportationCosts : gmap route Q :=
  dict_of_items (data_pTransportationCosts d).

Definition sSources_Customers : list route :=
  (data_pTransportationCosts d).*1.

Definition pFixedTransportation : gmap route Q :=
  dict_of_items (data_pFixedTransportation d).

(** [(s, c) in sSources_Customers] *)
Definition available (s c : string) : bool :=
  bool_decide ((s, c) ∈ sSources_Customers).

(** [for s in sSources for c in sCustomers if (s, c) in sSources_Customers],
    the pairs in the order the comprehensions visit them. *)
Definition sources_customers : list route :=
  s ← sSources; c ← sCustomers; if available s c then [(s, c)] else [].

(** The dict comprehension of decision variables: one [NumVar] call per
    visited pair, the handle stored under the pair. *)
Definition create_variables (sv : solver) : gmap route nat * solver :=
  foldl new_variable (∅, sv) sources_customers.

Section Constraints.

Variable vQuantityExchanged : gmap route nat.

(** Production limit for each source: the row that [Add] records. *)
Definition production_constraint (s : string) : result constraint :=
  lhs ← mapM (λ c, getitem vQuantityExchanged (s, c))
           (filter (λ c, available s c = true) sCustomers);
  bound ← getitem pSourceProduction s;
  Ok (row_le lhs bound (production_name s)).

(** Demand limit for each customer. *)
Definition demand_constraint (c : string) : result constraint :=
  lhs ← mapM (λ s, getitem vQuantityExchanged (s, c))
           (filter (λ s, available s c = true) sSources);
  bound ← getitem pCustomerDemand c;
  Ok (row_ge lhs bound (demand_name c)).

(** Quantity that is mandatory to move between a source and a customer:
    the row that [Add] records, or [None] when the [if] is not
    taken.  The [and] of the test is short-circuit: the fixed quantity
    is looked up only for an available pair. *)
Definition fixed_constraint (s c : string) : result (option constraint) :=
  if available s c then
    q ← getitem pFixedTransportation (s, c);
    if truthy q then
      v ← getitem vQuantityExchanged (s, c);
      bound ← getitem pFixedTransportation (s, c);
      Ok (Some {| c_expr := [v]; c_sense := EQ; c_bound := bound;
                  c_name := fixed_name s c |})
    else Ok None
  else Ok None.

Definition objective_terms : result (list (Q * nat)) :=
  mapM (λ sc, cost ← getitem pTransportationCosts sc;
              v ← getitem vQuantityExchanged sc;
              Ok (cost, v))
       sources_customers.

End Constraints.

(** The part of [solve_problem_using_ortools_linear_solver] from
    [CreateSolver] to [Minimize]: the variables' dict and the solver as it
    stands when [Solve] is called. *)
Definition create_the_model : result (gmap route nat * solver) :=
  let solver := CreateSolver in
  let '(vQuantityExchanged, solver) := create_variables solver in
  solver ← for_ sSources (λ s solver,
              k ← production_constraint vQuantityExchanged s;
              Ok (Add k solver))
            solver;
  solver ← for_ sCustomers (λ c solver,
              k ← demand_constraint vQuantityExchanged c;
              Ok (Add k solver))
            solver;
  solver ← for_ sSources (λ s solver,
              for_ sCustomers (λ c solver,
                k ← fixed_constraint vQuantityExchanged s c;
                Ok (from_option (λ k, Add k solver) solver k))
              solver)
            solver;
  terms ← objective_terms vQuantityExchanged;
  Ok (vQuantityExchanged, Minimize terms solver).

End Builder.

(** A small instance in the shape of the base case: two sources, three
    customers, four routes, one of them with a mandatory quantity. *)
Definition data_example : data := {|
  data_sSources := ["Arn"; "Gou"];
  data_sCustomers := ["Ams"; "Ber"; "Lon"];
  data_pSourceProduction := {[ "Arn" := 550%Q; "Gou" := 650%Q ]};
  data_pCustomerDemand := {[ "Ams" := 500%Q; "Ber" := 200%Q; "Lon" := 125%Q ]};
  data_pTransportationCosts :=
    [ (("Arn", "Ams"), 3.1%Q); (("Arn", "Ber"), 2.7%Q);
      (("Gou", "Ams"), 2.5%Q); (("Gou", "Lon"), 2.5%Q) ];
  data_pFixedTransportation :=
    [ (("Arn", "Ams"), 1%Q); (("Arn", "Ber"), 0%Q);
      (("Gou", "Ams"), 0%Q); (("Gou", "Lon"), 0%Q) ]
|}.

(** ** The solve engine *)

(** The result status of [Solve], as the linear solver wrapper names them. *)
Inductive status :=
  | OPTIMAL
  | FEASIBLE
  | INFEASIBLE
  | UNBOUNDED
  | ABNORMAL
  | MODEL_INVALID
  | NOT_SOLVED.

Global Instance status_eq_dec : EqDecision status.
Proof. solve_decision. Defined.

(** What the solver object answers after [Solve]: the objective value; per
    variable handle its solution value and reduced cost; the list that
    [ComputeConstraintActivities] returns; per constraint position the
    upper bound [ub()] the solver holds for it and its dual value. *)
Record solution := {
  objective_value : xnum;
  solution_value : nat → xnum;
  reduced_cost : nat → xnum;
  activities : list xnum;
  ub : nat → xnum;
  dual_value : nat → xnum
}.

(** ** The report *)

(** An argument of [print]. *)
Inductive pyobj :=
  | PStr (s : string)
  | PNum (x : xnum).

Record constraint_row := {
  Constraint : string;
  Slack : xnum;
  Shadow_price : xnum
}.

Record variable_row := {
  Variable_ : string;
  Value : xnum;
  Reduced_cost : xnum
}.

(** What the program writes: a [print] call with its arguments, or one of
    the three data frames it prints (given by the data they are built
    from). *)
Inductive output :=
  | Print (args : list pyobj)
  | PrintQuantities (rows : gmap route xnum)
  | PrintConstraints (rows : list constraint_row)
  | PrintVariables (rows : list variable_row).

Definition newline : string := String (ascii_of_nat 10) EmptyString.

(** [l[i]] for a position [i] of an enumeration. *)
Definition list_getitem {A} (l : list A) (i : nat) : result A :=
  match l !! i with
  | Some a => Ok a
  | None => Raise IndexError
  end.

(** [constraint_number] and [location] of a constraint name. *)
Definition decode_constraint_name (constraint_name : string) : result (Z * string) :=
  constraint_number ← PyStr.int (PyStr.slice constraint_name (Some 2) (Some 3));
  let location := PyStr.slice constraint_name (Some (-3)) None in
  Ok (constraint_number, location).

(** [source] and [customer] of a variable name. *)
Definition decode_variable_name (variable_name : string) : string * string :=
  let source := PyStr.slice variable_name (Some (-7)) (Some (-4)) in
  let customer := PyStr.slice variable_name (Some (-3)) None in
  (source, customer).

Definition print_conclusions_constraints_sensibility_analysis
    (constraint_name : string) (shadow_price : xnum) (sources : list string)
    : result (list output) :=
  '(constraint_number, location) ← decode_constraint_name constraint_name;
  let shadow_price := X.round2 shadow_price in
  if (constraint_number <=? 2) && PyStr.contains sources location then
    if X.ltb shadow_price X.zero then
      Ok [Print [PStr "The total transportation cost would be reduced by";
                 PNum (X.abs shadow_price);
                 PStr "euros for each additional ton available in";
                 PStr location]]
    else if X.ltb X.zero shadow_price then
      Ok [Print [PStr "The total transportation cost would be increased in";
                 PNum shadow_price;
                 PStr "euros for each additional ton available in";
                 PStr location]]
    else
      Ok [Print [PStr "The total transportation cost would remain equal for each additional ton available in";
                 PStr location]]
  else if constraint_number <=? 2 then
    if X.ltb shadow_price X.zero then
      Ok [Print [PStr "The total transportation cost would be reduced by";
                 PNum (X.abs shadow_price);
                 PStr "euros for each additional ton supply at";
                 PStr location]]
    else if X.ltb X.zero shadow_price then
      Ok [Print [PStr "The total transportation cost would be increased in";
                 PNum shadow_price;
                 PStr "euros for each additional ton supply at";
                 PStr location]]
    else
      Ok [Print [PStr "The total transportation cost would remain equal for each additional ton supply at";
                 PStr location]]
  else Ok [].

Definition print_conclusions_variables_sensibility_analysis
    (variable_name : string) (reduced_cost : xnum) : list output :=
  let '(source, customer) := decode_variable_name variable_name in
  let reduced_cost := X.round2 reduced_cost in
  if X.ltb reduced_cost X.zero then
    [Print [PStr "The total transportation cost would be reduced by";
            PNum (X.abs reduced_cost);
            PStr "euros for each ton supply from"; PStr source;
            PStr "to"; PStr customer]]
  else if X.ltb X.zero reduced_cost then
    [Print [PStr "The total cost would be increased in";
            PNum reduced_cost;
            PStr "euros for each ton supply from"; PStr source;
            PStr "to"; PStr customer]]
  else
    [Print [PStr "The total transportation cost would remain equal for each ton supply from";
            PStr source; PStr "to"; PStr customer]].

(** [pd.MultiIndex.from_tuples(keys)], which cannot infer the number of
    levels from no tuple. *)
Definition from_tuples (quantities : gmap route xnum) : result unit :=
  if decide (quantities = ∅) then Raise TypeError else Ok ().

(** [df[column]] on the frame [pd.DataFrame(records)]: the frame of no
    record has no column. *)
Definition column {A} (records : list A) : result unit :=
  match records with
  | [] => Raise KeyError
  | _ => Ok ()
  end.

Section Report.

Variable d : data.
Variable vQuantityExchanged : gmap route nat.
Variable solver : solver.
Variable sol : solution.

Definition dict_quantity_sources_customers : result (gmap route xnum) :=
  items ← mapM (λ sc, v ← getitem vQuantityExchanged sc;
                      Ok (sc, solution_value sol v))
             (sources_customers d);
  Ok (dict_of_items (filter (λ it, X.ltb X.zero it.2 = true) items)).

(** ['Slack'] of the constraint at position [i]. *)
Definition slack (i : nat) (activity : xnum) : xnum :=
  if negb (X.eqb (X.sub (ub sol i) activity) PInf)
  then X.sub (ub sol i) activity
  else X.zero.

Definition list_sensibility_analysis_constraints : result (list constraint_row) :=
  mapM (λ ic, activity ← list_getitem (activities sol) ic.1;
              Ok {| Constraint := c_name ic.2;
                    Slack := slack ic.1 activity;
                    Shadow_price := dual_value sol ic.1 |})
       (imap pair (constraints solver)).

(** The rows [df[df['Slack'] == 0]]. *)
Definition binding (rows : list constraint_row) : list constraint_row :=
  filter (λ row, X.eqb (Slack row) X.zero = true) rows.

Definition list_sensibility_analysis_variables : list variable_row :=
  imap (λ i v, {| Variable_ := v_name v;
                  Value := solution_value sol i;
                  Reduced_cost := reduced_cost sol i |})
       (variables solver).

(** The rows [df[df['Value'] == 0]]. *)
Definition at_zero (rows : list variable_row) : list variable_row :=
  filter (λ row, X.eqb (Value row) X.zero = true) rows.

(** The [else] branch of the status test. *)
Definition print_results (status_code : status) : result (list output) :=
  let status_text :=
    if decide (status_code = OPTIMAL) then "Optimal"
    else "Feasible, but not optimal" in
  quantities ← dict_quantity_sources_customers;
  from_tuples quantities;;
  crows ← list_sensibility_analysis_constraints;
  column crows;;
  cconcl ← mapM (λ row, print_conclusions_constraints_sensibility_analysis
                          (Constraint row) (Shadow_price row) (data_sSources d))
              (binding crows);
  let vrows := list_sensibility_analysis_variables in
  column vrows;;
  let vconcl := map (λ row, print_conclusions_variables_sensibility_analysis
                              (Variable_ row) (Reduced_cost row))
                  (at_zero vrows) in
  Ok ([ Print [PStr newline];
        Print [PStr "Solver status: "; PStr status_text; PStr newline];
        Print [PStr "Total transportation cost: ";
               PNum (objective_value sol); PStr newline];
        Print [PStr "Quantity exchanged between sources and customers:"];
        PrintQuantities quantities;
        Print [PStr newline];
        Print [PStr "Sensibility analysis - constraints:"];
        PrintConstraints crows;
        Print [PStr newline] ]
      ++ concat cconcl
      ++ [ Print [PStr newline];
           Print [PStr "Sensibility analysis - variables:"];
           PrintVariables vrows;
           Print [PStr newline] ]
      ++ concat vconcl
      ++ [ Print [PStr newline] ]).

Definition could_not_solve : list output :=
  [Print [PStr "The solver could not solve the problem."]].

(** From the status test to the end of the function. *)
Definition print_report (status_code : status) : result (list output) :=
  if bool_decide (status_code ≠ FEASIBLE) && bool_decide (status_code ≠ OPTIMAL)
  then Ok could_not_solve
  else print_results status_code.

End Report.

(** The whole function on the loaded data, for an engine [Solve] that maps
    the solver as built to a status and the answers of the solved solver. *)
Definition solve_problem_using_ortools_linear_solver
    (Solve : solver → status * solution) (d : data) : result (list output) :=
  '(vQuantityExchanged, solver) ← create_the_model d;
  let '(status_code, sol) := Solve solver in
  print_report d vQuantityExchanged solver sol status_code.

Definition sol_example : solution := {|
  objective_value := Fin 2312.5;
  solution_value := λ v, nth v [Fin 1; Fin 200; Fin 499; Fin 125] NaN;
  reduced_cost := λ v, nth v [Fin 0.6; Fin 0; Fin 0; Fin 0] NaN;
  activities := [Fin 201; Fin 624; Fin 500; Fin 200; Fin 125; Fin 1];
  ub := λ i, nth i [Fin 550; Fin 650; PInf; PInf; PInf; Fin 1] NaN;
  dual_value := λ i, nth i [Fin 0; Fin (-0.004); Fin 2.5; Fin 2.7; Fin 2.5; Fin 0.6] NaN
|}.

(** The declaration that [NumVar] records for a pair. *)
Definition quantity_variable (sc : route) : variable :=
  {| v_lb := X.zero; v_ub := PInf; v_name := variable_name sc.1 sc.2 |}.

(** ** Notions used in the statements *)

(** A computation that can raise nothing but [KeyError]. *)
Definition raises_only_KeyError {A} (m : result A) : Prop :=
  ∀ e, m = Raise e → e = KeyError.

(** The solver after [Add] has been called on each of [ks] in turn. *)
Definition add_all (ks : list constraint) (sv : solver) : solver :=
  {| variables := variables sv;
     constraints := constraints sv ++ ks;
     objective := objective sv |}.

(** Every stored handle points at the declaration of its pair, and no two
    pairs share a handle. *)
Definition handles_ok (acc : gmap route nat * solver) : Prop :=
  (∀ sc v, acc.1 !! sc = Some v →
           variables acc.2 !! v = Some (quantity_variable sc)) ∧
  (∀ sc1 sc2 v, acc.1 !! sc1 = Some v → acc.1 !! sc2 = Some v → sc1 = sc2).

(** The constraints the third loop emits for one source. *)
Definition fixed_of_source (d : data) (vq : gmap route nat) (s : string)
    : result (list constraint) :=
  oks ← mapM (fixed_constraint d vq s) (data_sCustomers d);
  Ok (omap id oks).

(** Every lookup that the construction performs finds its key: a production
    for each source, a demand for each customer, and a fixed quantity for
    each pair that the loops visit and the cost table lists. *)
Definition lookups_defined (d : data) : Prop :=
  Forall (λ s, is_Some (data_pSourceProduction d !! s)) (data_sSources d) ∧
  Forall (λ c, is_Some (data_pCustomerDemand d !! c)) (data_sCustomers d) ∧
  Forall (λ sc, is_Some (pFixedTransportation d !! sc)) (sources_customers d).

Global Instance lookups_defined_dec d : Decision (lookups_defined d).
Proof. unfold lookups_defined. apply _. Defined.

(** ** What the model means *)

(** The value of a left-hand side under an assignment of the variables, as
    [sum] accumulates it from [0]. *)
Definition lhs_value (x : nat → Q) (expr : list nat) : Q :=
  foldl (λ acc v, acc + x v)%Q 0%Q expr.

Definition satisfies (x : nat → Q) (k : constraint) : bool :=
  match c_sense k with
  | LE => Qle_bool (lhs_value x (c_expr k)) (c_bound k)
  | GE => Qle_bool (c_bound k) (lhs_value x (c_expr k))
  | EQ => Qeq_bool (lhs_value x (c_expr k)) (c_bound k)
  end.

(** The assignment satisfies every constraint of the solver. *)
Definition satisfies_all (x : nat → Q) (sv : solver) : bool :=
  forallb (satisfies x) (constraints sv).

(** ** More instances *)

(** The cost table lists a route from a source that is not in the list of
    sources. *)
Definition data_stray : data := {|
  data_sSources := ["Arn"];
  data_sCustomers := ["Ams"];
  data_pSourceProduction := {[ "Arn" := 10%Q ]};
  data_pCustomerDemand := {[ "Ams" := 5%Q ]};
  data_pTransportationCosts := [ (("Arn", "Ams"), 1%Q); (("Gou", "Ams"), 2%Q) ];
  data_pFixedTransportation := [ (("Arn", "Ams"), 0%Q); (("Gou", "Ams"), 0%Q) ]
|}.

(** Location codes that are not three characters long. *)
Definition data_long : data := {|
  data_sSources := ["Paris"];
  data_sCustomers := ["Rome"];
  data_pSourceProduction := {[ "Paris" := 10%Q ]};
  data_pCustomerDemand := {[ "Rome" := 5%Q ]};
  data_pTransportationCosts := [ (("Paris", "Rome"), 1%Q) ];
  data_pFixedTransportation := [ (("Paris", "Rome"), 0%Q) ]
|}.

(** The base case with an empty table of fixed quantities. *)
Definition data_unfixed : data := {|
  data_sSources := data_sSources data_example;
  data_sCustomers := data_sCustomers data_example;
  data_pSourceProduction := data_pSourceProduction data_example;
  data_pCustomerDemand := data_pCustomerDemand data_example;
  data_pTransportationCosts := data_pTransportationCosts data_example;
  data_pFixedTransportation := []
|}.

(** The model of [data_example]. *)
Definition vq_example : gmap route nat :=
  {[ ("Arn", "Ams") := 0%nat; ("Arn", "Ber") := 1%nat;
     ("Gou", "Ams") := 2%nat; ("Gou", "Lon") := 3%nat ]}.

Definition solver_example : solver := {|
  variables := quantity_variable <$> [ ("Arn", "Ams"); ("Arn", "Ber");
                                       ("Gou", "Ams"); ("Gou", "Lon") ];
  constraints :=
    [ {| c_expr := [0; 1]%nat; c_sense := LE; c_bound := 550;
         c_name := "c01_production_Arn" |};
      {| c_expr := [2; 3]%nat; c_sense := LE; c_bound := 650;
         c_name := "c01_production_Gou" |};
      {| c_expr := [0; 2]%nat; c_sense := GE; c_bound := 500;
         c_name := "c02_demand_Ams" |};
      {| c_expr := [1]%nat; c_sense := GE; c_bound := 200;
         c_name := "c02_demand_Ber" |};
      {| c_expr := [3]%nat; c_sense := GE; c_bound := 125;
         c_name := "c02_demand_Lon" |};
      {| c_expr := [0]%nat; c_sense := EQ; c_bound := 1;
         c_name := "c03_fixed_Arn_Ams" |} ];
  objective := [ (3.1, 0%nat); (2.7, 1%nat); (2.5, 2%nat); (2.5, 3%nat) ]%Q
|}.

(** A flow that satisfies it. *)
Definition flow_example (v : nat) : Q := nth v [1; 200; 499; 125]%Q 0%Q.

(** One route, and a customer that demands nothing. *)
Definition data_idle : data := {|
  data_sSources := ["Arn"];
  data_sCustomers := ["Ams"];
  data_pSourceProduction := {[ "Arn" := 10%Q ]};
  data_pCustomerDemand := {[ "Ams" := 0%Q ]};
  data_pTransportationCosts := [ (("Arn", "Ams"), 1%Q) ];
  data_pFixedTransportation := [ (("Arn", "Ams"), 0%Q) ]
|}.

(** Its optimum: nothing moves, at no cost. *)
Definition sol_idle : solution := {|
  objective_value := Fin 0;
  solution_value := λ _, Fin 0;
  reduced_cost := λ _, Fin 1;
  activities := [Fin 0; Fin 0];
  ub := λ i, nth i [Fin 10; PInf] NaN;
  dual_value := λ _, Fin 0
|}.

(** ** The sentences of the report, as the specification words them *)

(** What a rounded price announces: negative, the cost would decrease by its
    absolute value; positive, the cost would increase by it; zero, the cost
    would remain equal. *)
Inductive change :=
  | Decrease (amount : xnum)
  | Increase (amount : xnum)
  | Remain_equal.

Definition classify_by_sign (price : xnum) : change :=
  if X.ltb price X.zero then Decrease (X.abs price)
  else if X.ltb X.zero price then Increase price
  else Remain_equal.

(** The sentence on a constraint: [side] is ["available in"] for the source
    side and ["supply at"] for the customer side. *)
Definition constraint_sentence (side location : string) (ch : change) : output :=
  match ch with
  | Decrease amount =>
      Print [PStr "The total transportation cost would be reduced by";
             PNum amount;
             PStr ("euros for each additional ton " +:+ side);
             PStr location]
  | Increase amount =>
      Print [PStr "The total transportation cost would be increased in";
             PNum amount;
             PStr ("euros for each additional ton " +:+ side);
             PStr location]
  | Remain_equal =>
      Print [PStr ("The total transportation cost would remain equal for each additional ton "
                   +:+ side);
             PStr location]
  end.

(** The sentence on a variable. *)
Definition variable_sentence (source customer : string) (ch : change) : output :=
  match ch with
  | Decrease amount =>
      Print [PStr "The total transportation cost would be reduced by";
             PNum amount;
             PStr "euros for each ton supply from"; PStr source;
             PStr "to"; PStr customer]
  | Increase amount =>
      Print [PStr "The total cost would be increased in";
             PNum amount;
             PStr "euros for each ton supply from"; PStr source;
             PStr "to"; PStr customer]
  | Remain_equal =>
      Print [PStr "The total transportation cost would remain equal for each ton supply from";
             PStr source; PStr "to"; PStr customer]
  end.

(** The side of a decoded location. *)
Definition side_of (sources : list string) (location : string) : string :=
  if PyStr.contains sources location then "available in" else "supply at".

(** ** The fixed parts of the report *)

(** What is printed before the conclusions on the constraints. *)
Definition report_head (status_text : string) (sol : solution)
    (quantities : gmap route xnum) (crows : list constraint_row) : list output :=
  [ Print [PStr newline];
    Print [PStr "Solver status: "; PStr status_text; PStr newline];
    Print [PStr "Total transportation cost: ";
           PNum (objective_value sol); PStr newline];
    Print [PStr "Quantity exchanged between sources and customers:"];
    PrintQuantities quantities;
    Print [PStr newline];
    Print [PStr "Sensibility analysis - constraints:"];
    PrintConstraints crows;
    Print [PStr newline] ].

(** What is printed between them and the conclusions on the variables. *)
Definition report_middle (vrows : list variable_row) : list output :=
  [ Print [PStr newline];
    Print [PStr "Sensibility analysis - variables:"];
    PrintVariables vrows;
    Print [PStr newline] ].

(** The conclusions on the variables whose value is zero. *)
Definition variable_conclusions (sv : solver) (sol : solution) : list output :=
  concat (map (λ row, print_conclusions_variables_sensibility_analysis
                        (Variable_ row) (Reduced_cost row))
              (at_zero (list_sensibility_analysis_variables sv sol))).

(** The conclusion on one row of the constraint table. *)
Definition constraint_conclusion (d : data) (row : constraint_row)
    : result (list output) :=
  print_conclusions_constraints_sensibility_analysis
    (Constraint row) (Shadow_price row) (data_sSources d).

(** ** Notions used in the further statements *)

(** Every location code has exactly three characters. *)
Definition three_character_codes (d : data) : Prop :=
  Forall (λ s, String.length s = 3%nat) (data_sSources d) ∧
  Forall (λ c, String.length c = 3%nat) (data_sCustomers d).

Global Instance three_character_codes_dec d : Decision (three_character_codes d).
Proof. unfold three_character_codes. apply _. Defined.

(** The quantity that leaves a source under an assignment of the variables:
    the sum, over the customers in list order, of the variables of the
    source's routes. *)
Definition flow_out (d : data) (vq : gmap route nat) (x : nat → Q)
    (s : string) : Q :=
  lhs_value x (omap (λ c, vq !! (s, c)) (data_sCustomers d)).

(** The quantity that reaches a customer. *)
Definition flow_in (d : data) (vq : gmap route nat) (x : nat → Q)
    (c : string) : Q :=
  lhs_value x (omap (λ s, vq !! (s, c)) (data_sSources d)).

(** The visited pairs whose fixed quantity is present and not zero, in the
    order of the visit. *)
Definition fixed_routes (d : data) : list route :=
  filter (λ sc, from_option truthy false (pFixedTransportation d !! sc) = true)
         (sources_customers d).

(** The largest double. *)
Definition max_double : Q := inject_Z ((2 ^ 53 - 1) * 2 ^ 971).

(** Every number of the input is within the range of the doubles that the
    solver works with.  (Python refuses to convert a larger integer to a
    double.) *)
Definition numbers_in_double_range (d : data) : Prop :=
  map_Forall (λ _ q, Qabs q <= max_double)%Q (data_pSourceProduction d) ∧
  map_Forall (λ _ q, Qabs q <= max_double)%Q (data_pCustomerDemand d) ∧
  Forall (λ it, Qabs it.2 <= max_double)%Q (data_pTransportationCosts d) ∧
  Forall (λ it, Qabs it.2 <= max_double)%Q (data_pFixedTransportation d).

Global Instance Qle_decision (x y : Q) : Decision (x <= y)%Q.
Proof. unfold Qle. apply _. Defined.

Global Instance numbers_in_double_range_dec d :
  Decision (numbers_in_double_range d).
Proof. unfold numbers_in_double_range. apply _. Defined.

(** * Properties *)

(** ** Strings and slices *)

Section StringFacts.

Lemma length_append (a b : string) :
  String.length (a +:+ b) = (String.length a + String.length b)%nat.
Proof. induction a as [|ch a IH]; simpl; [done | by rewrite IH]. Qed.

Lemma append_cons (ch : ascii) (a b : string) :
  String ch a +:+ b = String ch (a +:+ b).
Proof. reflexivity. Qed.

Lemma append_assoc (a b c : string) : (a +:+ b) +:+ c = a +:+ (b +:+ c).
Proof.
  induction a as [|ch a IH]; [done | by rewrite !append_cons, IH].
Qed.

Lemma substring_skip (p s : string) (n m : nat) :
  String.substring (String.length p + n) m (p +:+ s) = String.substring n m s.
Proof. induction p as [|ch p IH]; simpl; [done | apply IH]. Qed.

Lemma substring_prefix (s t : string) :
  String.substring 0 (String.length s) (s +:+ t) = s.
Proof.
  induction s as [|ch s IH]; simpl; [by destruct t | by rewrite IH].
Qed.

Lemma substring_all (s : string) :
  String.substring 0 (String.length s) s = s.
Proof. induction s as [|ch s IH]; simpl; [done | by rewrite IH]. Qed.

(** [(p + c)[-3:]] is [c] when [c] has three characters. *)
Lemma slice_last3 (p c : string) :
  String.length c = 3%nat → PyStr.slice (p +:+ c) (Some (-3)) None = c.
Proof.
  intros Hc. unfold PyStr.slice, PyStr.adjust. simpl default.
  rewrite length_append, Hc.
  replace (-3 <? 0) with true by done.
  destruct (Z.ltb_spec (Z.of_nat (String.length p + 3)) 0) as [?|_]; [lia|].
  rewrite Z.max_l, Z.min_id by lia.
  replace (Z.to_nat (-3 + Z.of_nat (String.length p + 3)))
    with (String.length p + 0)%nat by lia.
  replace (Z.to_nat _) with (String.length c) by lia.
  rewrite substring_skip. apply substring_all.
Qed.

Lemma slice_last3_sep (p s c : string) :
  String.length c = 3%nat →
  PyStr.slice (p +:+ s +:+ "_" +:+ c) (Some (-3)) None = c.
Proof.
  intros Hc.
  rewrite <- (append_assoc s "_" c), <- (append_assoc p (s +:+ "_") c).
  by apply slice_last3.
Qed.

(** [(p + s + "_" + c)[-7:-4]] is [s] when both codes have three
    characters. *)
Lemma slice_7_4 (p s c : string) :
  String.length s = 3%nat → String.length c = 3%nat →
  PyStr.slice (p +:+ s +:+ "_" +:+ c) (Some (-7)) (Some (-4)) = s.
Proof.
  intros Hs Hc. unfold PyStr.slice, PyStr.adjust. simpl default.
  rewrite !length_append, Hs, Hc. simpl String.length.
  replace (-7 <? 0) with true by done.
  replace (-4 <? 0) with true by done.
  rewrite !Z.max_l by lia.
  replace (Z.to_nat (-7 + _)) with (String.length p + 0)%nat by lia.
  replace (Z.to_nat _) with (String.length s) by lia.
  rewrite substring_skip. apply substring_prefix.
Qed.

(** [name[2:3]] is the third character of a name that has one. *)
Lemma slice_2_3 (a b ch : ascii) (rest : string) :
  PyStr.slice (String a (String b (String ch rest))) (Some 2) (Some 3)
  = String ch EmptyString.
Proof.
  unfold PyStr.slice, PyStr.adjust. simpl default.
  replace (2 <? 0) with false by done.
  replace (3 <? 0) with false by done.
  rewrite !Z.min_l by (simpl String.length; lia).
  change (Z.to_nat 2) with 2%nat. change (Z.to_nat (3 - 2)) with 1%nat.
  simpl. by destruct rest.
Qed.

Lemma slice_2_3_append (a b ch : ascii) (p s : string) :
  PyStr.slice (String a (String b (String ch p)) +:+ s) (Some 2) (Some 3)
  = String ch EmptyString.
Proof. exact (slice_2_3 a b ch (p +:+ s)). Qed.

End StringFacts.

(** ** Identifier round trip *)

Section RoundTrip.

Lemma decode_production_name (s : string) :
  String.length s = 3%nat →
  decode_constraint_name (production_name s) = Ok (1, s).
Proof.
  intros Hs. unfold decode_constraint_name, production_name.
  by rewrite (slice_last3 _ s Hs), slice_2_3_append.
Qed.

Lemma decode_demand_name (c : string) :
  String.length c = 3%nat →
  decode_constraint_name (demand_name c) = Ok (2, c).
Proof.
  intros Hc. unfold decode_constraint_name, demand_name.
  by rewrite (slice_last3 _ c Hc), slice_2_3_append.
Qed.

Lemma decode_fixed_name (s c : string) :
  String.length c = 3%nat →
  decode_constraint_name (fixed_name s c) = Ok (3, c).
Proof.
  intros Hc. unfold decode_constraint_name, fixed_name.
  by rewrite (slice_last3_sep _ s c Hc), slice_2_3_append.
Qed.

Lemma decode_variable_name_ok (s c : string) :
  String.length s = 3%nat → String.length c = 3%nat →
  decode_variable_name (variable_name s c) = (s, c).
Proof.
  intros Hs Hc. unfold decode_variable_name, variable_name.
  rewrite (slice_7_4 _ s c Hs Hc). f_equal.
  by apply slice_last3_sep.
Qed.

End RoundTrip.

(** ** The exception monad and loops *)

Section Monad.

Context {A B : Type}.

Lemma bind_Ok (a : A) (f : A → result B) : Ok a ≫= f = f a.
Proof. reflexivity. Qed.

Lemma bind_Raise (e : exn) (f : A → result B) : Raise e ≫= f = Raise e.
Proof. reflexivity. Qed.

Lemma bind_Ok_inv (m : result A) (f : A → result B) (b : B) :
  m ≫= f = Ok b ↔ ∃ a, m = Ok a ∧ f a = Ok b.
Proof.
  destruct m as [a|e]; simpl; split.
  - intros Hf. by exists a.
  - by intros (a' & [= <-] & Hf).
  - discriminate.
  - by intros (a' & [=] & _).
Qed.

End Monad.

Section MapM.

Context {A B : Type}.

Lemma mapM_nil (f : A → result B) : mapM f [] = Ok [].
Proof. reflexivity. Qed.

Lemma mapM_cons (f : A → result B) (x : A) (l : list A) :
  mapM f (x :: l) = y ← f x; k ← mapM f l; Ok (y :: k).
Proof. reflexivity. Qed.

Lemma mapM_Ok (f : A → result B) (l : list A) (k : list B) :
  mapM f l = Ok k ↔ Forall2 (λ x y, f x = Ok y) l k.
Proof.
  revert k. induction l as [|x l IH]; intros k.
  - rewrite mapM_nil. split.
    + intros [= <-]. constructor.
    + intros Hk. by inversion Hk.
  - rewrite mapM_cons. split.
    + intros (y & Hy & (k' & Hk' & [= <-])%bind_Ok_inv)%bind_Ok_inv.
      constructor; [done | by apply IH].
    + intros Hk. inversion Hk as [|? y ? k' Hy Hk']; subst.
      apply IH in Hk'. by rewrite Hy, bind_Ok, Hk'.
Qed.

Lemma mapM_defined (f : A → result B) (l : list A) :
  Forall (λ x, ∃ y, f x = Ok y) l → ∃ k, mapM f l = Ok k.
Proof.
  induction 1 as [|x l [y Hy] _ [k Hk]].
  - by exists [].
  - exists (y :: k). by rewrite mapM_cons, Hy, bind_Ok, Hk.
Qed.

End MapM.

Lemma raises_only_Ok {A} (a : A) : raises_only_KeyError (Ok a).
Proof. by intros e. Qed.

Lemma raises_only_getitem `{Countable K} {A} (m : gmap K A) (k : K) :
  raises_only_KeyError (getitem m k).
Proof. intros e. unfold getitem. destruct (m !! k); congruence. Qed.

Lemma raises_only_bind {A B} (m : result A) (f : A → result B) :
  raises_only_KeyError m → (∀ a, raises_only_KeyError (f a)) →
  raises_only_KeyError (m ≫= f).
Proof.
  intros Hm Hf e. destruct m as [a|e']; simpl.
  - apply Hf.
  - intros [= <-]. by apply Hm.
Qed.

Lemma raises_only_mapM {A B} (f : A → result B) (l : list A) :
  (∀ x, raises_only_KeyError (f x)) → raises_only_KeyError (mapM f l).
Proof.
  intros Hf. induction l as [|x l IH]; [apply raises_only_Ok|].
  rewrite mapM_cons. apply raises_only_bind; [done|]. intros y.
  apply raises_only_bind; [done|]. intros k. apply raises_only_Ok.
Qed.

Section Loops.

Context {A : Type}.

Lemma add_all_nil (sv : solver) : add_all [] sv = sv.
Proof. destruct sv. unfold add_all. simpl. by rewrite app_nil_r. Qed.

Lemma add_all_app (ks ks' : list constraint) (sv : solver) :
  add_all ks' (add_all ks sv) = add_all (ks ++ ks') sv.
Proof. unfold add_all. simpl. by rewrite app_assoc. Qed.

(** A loop whose body hands the constraints [emit a] to the solver, or
    raises, emits them all in order, or raises. *)
Lemma for_emit (emit : A → result (list constraint))
    (body : A → solver → result solver) (l : list A) (sv : solver) :
  (∀ a sv, body a sv = ks ← emit a; Ok (add_all ks sv)) →
  for_ l body sv = kss ← mapM emit l; Ok (add_all (concat kss) sv).
Proof.
  intros Hbody. revert sv. induction l as [|a l IH]; intros sv.
  - simpl. by rewrite add_all_nil.
  - simpl for_. rewrite Hbody, mapM_cons.
    destruct (emit a) as [ks|e]; [|done].
    rewrite !bind_Ok, IH.
    destruct (mapM emit l) as [kss|e]; [|done].
    rewrite !bind_Ok. simpl concat. by rewrite add_all_app.
Qed.

Lemma mapM_singleton (f : A → result constraint) (l : list A) :
  mapM (λ a, k ← f a; Ok [k]) l = ks ← mapM f l; Ok ((λ k, [k]) <$> ks).
Proof.
  induction l as [|a l IH]; [done|].
  rewrite !mapM_cons, IH.
  destruct (f a) as [k|e]; [|done].
  rewrite !bind_Ok. by destruct (mapM f l).
Qed.

Lemma concat_singletons {X} (ks : list X) : concat ((λ k, [k]) <$> ks) = ks.
Proof. induction ks as [|k ks IH]; csimpl; [done | by f_equal]. Qed.

Lemma elem_of_concat {X} (x : X) (ls : list (list X)) :
  x ∈ concat ls ↔ ∃ l, x ∈ l ∧ l ∈ ls.
Proof.
  induction ls as [|l ls IH]; simpl.
  - split; [by intros ?%not_elem_of_nil | by intros (? & _ & ?%not_elem_of_nil)].
  - rewrite elem_of_app, IH. split.
    + intros [Hx | (l' & Hx & Hl')]; [exists l | exists l'];
        (split; [done|]); [left | by right].
    + intros (l' & Hx & [-> | Hl']%elem_of_cons); [by left | right; eauto].
Qed.

(** One [Add] per element. *)
Lemma for_Add (f : A → result constraint) (l : list A) (sv : solver) :
  for_ l (λ a sv, k ← f a; Ok (Add k sv)) sv
  = ks ← mapM f l; Ok (add_all ks sv).
Proof.
  rewrite (for_emit (λ a, k ← f a; Ok [k])).
  - rewrite mapM_singleton. destruct (mapM f l) as [ks|e]; [|done].
    by rewrite !bind_Ok, concat_singletons.
  - intros a sv'. by destruct (f a).
Qed.

(** At most one [Add] per element. *)
Lemma for_Add_option (f : A → result (option constraint)) (l : list A)
    (sv : solver) :
  for_ l (λ a sv, k ← f a; Ok (from_option (λ k, Add k sv) sv k)) sv
  = oks ← mapM f l; Ok (add_all (omap id oks) sv).
Proof.
  revert sv. induction l as [|a l IH]; intros sv.
  - simpl. by rewrite add_all_nil.
  - simpl for_. rewrite mapM_cons.
    destruct (f a) as [[k|]|e]; [| |done].
    + rewrite !bind_Ok. simpl from_option. rewrite IH.
      destruct (mapM f l) as [oks|e]; [|done].
      rewrite !bind_Ok. unfold add_all, Add. simpl. by rewrite <- app_assoc.
    + rewrite !bind_Ok. simpl from_option. rewrite IH.
      by destruct (mapM f l).
Qed.

End Loops.

(** ** Decision variables *)

Section Variables.

Lemma new_variable_handles_ok acc sc :
  handles_ok acc → handles_ok (new_variable acc sc).
Proof.
  destruct acc as [vq sv]. intros [Hdecl Hinj]. simpl in *.
  assert (Hlt : ∀ sc' v, vq !! sc' = Some v → (v < length (variables sv))%nat).
  { intros sc' v Hv. eapply lookup_lt_Some, Hdecl, Hv. }
  split; simpl.
  - intros sc' v. rewrite lookup_insert. case_decide as Hsc.
    + intros [= <-]. subst sc'.
      rewrite lookup_app_r, Nat.sub_diag by lia. done.
    + intros Hv. rewrite lookup_app_l by eauto. eauto.
  - intros sc1 sc2 v. rewrite !lookup_insert.
    repeat case_decide; subst; try done.
    + intros [= <-] Hv. apply Hlt in Hv. lia.
    + intros Hv [= <-]. apply Hlt in Hv. lia.
    + eauto.
Qed.

Lemma foldl_new_variable_handles_ok l acc :
  handles_ok acc → handles_ok (foldl new_variable acc l).
Proof.
  revert acc. induction l as [|sc l IH]; intros acc Hacc; [done|].
  simpl. by apply IH, new_variable_handles_ok.
Qed.

Lemma foldl_new_variable_dom l acc :
  dom (foldl new_variable acc l).1 = dom acc.1 ∪ list_to_set l.
Proof.
  revert acc. induction l as [|sc l IH]; intros acc; simpl.
  - set_solver.
  - rewrite IH. destruct acc as [vq sv]. simpl.
    rewrite dom_insert_L. set_solver.
Qed.

Lemma foldl_new_variable_solver l acc :
  (foldl new_variable acc l).2
  = {| variables := variables acc.2 ++ (quantity_variable <$> l);
       constraints := constraints acc.2;
       objective := objective acc.2 |}.
Proof.
  revert acc. induction l as [|sc l IH]; intros [vq sv]; simpl.
  - rewrite app_nil_r. by destruct sv.
  - rewrite IH. simpl. by rewrite <- app_assoc.
Qed.

Lemma dict_of_items_dom `{Countable K} {V} (items : list (K * V)) :
  dom (dict_of_items items) = list_to_set items.*1.
Proof.
  unfold dict_of_items.
  assert (Hgen : ∀ (m : gmap K V),
    dom (foldl (λ d kv, <[kv.1 := kv.2]> d) m items)
    = dom m ∪ list_to_set items.*1).
  { induction items as [|[k v] items IH]; intros m; simpl.
    - set_solver.
    - rewrite IH, dom_insert_L. set_solver. }
  rewrite Hgen. set_solver.
Qed.

Variable d : data.

Lemma elem_of_sources_customers (s c : string) :
  (s, c) ∈ sources_customers d ↔
  s ∈ data_sSources d ∧ c ∈ data_sCustomers d ∧ (s, c) ∈ sSources_Customers d.
Proof.
  unfold sources_customers. rewrite list_elem_of_bind. split.
  - intros (s' & (c' & Hin & Hc')%list_elem_of_bind & Hs').
    unfold available in Hin. case_bool_decide as Hav.
    + apply list_elem_of_singleton in Hin as [= -> ->]. done.
    + by apply not_elem_of_nil in Hin.
  - intros (Hs & Hc & Hav). exists s. split; [|done].
    apply list_elem_of_bind. exists c. split; [|done].
    unfold available. rewrite bool_decide_eq_true_2 by done.
    by apply list_elem_of_singleton.
Qed.

Lemma create_variables_handles_ok :
  handles_ok (create_variables d CreateSolver).
Proof.
  apply foldl_new_variable_handles_ok. split; simpl.
  - intros sc v. by rewrite lookup_empty.
  - intros sc1 sc2 v. by rewrite lookup_empty.
Qed.

Lemma create_variables_lookup (s c : string) :
  is_Some ((create_variables d CreateSolver).1 !! (s, c)) ↔
  s ∈ data_sSources d ∧ c ∈ data_sCustomers d ∧ (s, c) ∈ sSources_Customers d.
Proof.
  rewrite <- elem_of_sources_customers, <- elem_of_dom.
  unfold create_variables. rewrite foldl_new_variable_dom. simpl.
  set_solver.
Qed.

Lemma create_variables_solver :
  (create_variables d CreateSolver).2
  = {| variables := quantity_variable <$> sources_customers d;
       constraints := []; objective := [] |}.
Proof. unfold create_variables. by rewrite foldl_new_variable_solver. Qed.

End Variables.

(** ** The shape of the model *)

Section Shape.

Variable d : data.

Lemma getitem_Ok `{Countable K} {V} (m : gmap K V) (k : K) (v : V) :
  getitem m k = Ok v ↔ m !! k = Some v.
Proof. unfold getitem. destruct (m !! k); split; congruence. Qed.

(** The model, loop by loop. *)
Lemma create_the_model_unfold :
  create_the_model d =
  let vq := (create_variables d CreateSolver).1 in
  caps ← mapM (production_constraint d vq) (data_sSources d);
  dems ← mapM (demand_constraint d vq) (data_sCustomers d);
  fixed ← mapM (fixed_of_source d vq) (data_sSources d);
  terms ← objective_terms d vq;
  Ok (vq, {| variables := quantity_variable <$> sources_customers d;
             constraints := caps ++ dems ++ concat fixed;
             objective := terms |}).
Proof.
  unfold create_the_model.
  pose proof (create_variables_solver d) as Hsv.
  destruct (create_variables d CreateSolver) as [vq sv0]. simpl in Hsv.
  subst sv0. cbv zeta. simpl fst.
  rewrite for_Add.
  destruct (mapM (production_constraint d vq) _) as [caps|e]; [|done].
  rewrite !bind_Ok, for_Add.
  destruct (mapM (demand_constraint d vq) _) as [dems|e]; [|done].
  rewrite !bind_Ok.
  rewrite (for_emit (fixed_of_source d vq)).
  2:{ intros s sv. unfold fixed_of_source. rewrite for_Add_option.
      by destruct (mapM _ _). }
  destruct (mapM (fixed_of_source d vq) _) as [fixed|e]; [|done].
  rewrite !bind_Ok.
  destruct (objective_terms d vq) as [terms|e]; [|done].
  rewrite !bind_Ok. unfold Minimize, add_all. simpl.
  by rewrite <- app_assoc.
Qed.

(** What a successful construction has produced. *)
Lemma create_the_model_Ok (vq : gmap route nat) (sv : solver) :
  create_the_model d = Ok (vq, sv) →
  vq = (create_variables d CreateSolver).1 ∧
  ∃ caps dems fixed terms,
    Forall2 (λ s k, production_constraint d vq s = Ok k) (data_sSources d) caps ∧
    Forall2 (λ c k, demand_constraint d vq c = Ok k) (data_sCustomers d) dems ∧
    Forall2 (λ s ks, fixed_of_source d vq s = Ok ks) (data_sSources d) fixed ∧
    objective_terms d vq = Ok terms ∧
    sv = {| variables := quantity_variable <$> sources_customers d;
            constraints := caps ++ dems ++ concat fixed;
            objective := terms |}.
Proof.
  rewrite create_the_model_unfold. cbv zeta.
  intros (caps & Hcaps & (dems & Hdems & (fixed & Hfixed &
    (terms & Hterms & [= <- <-])%bind_Ok_inv)%bind_Ok_inv)%bind_Ok_inv)%bind_Ok_inv.
  split; [done|]. exists caps, dems, fixed, terms.
  by rewrite <- !mapM_Ok.
Qed.

(** The row of a capacity constraint: over the variables of the source's
    routes an upper bound by the production [b]; over no variable the row
    of the bool [0 <= b]. *)
Lemma production_constraint_Ok vq s k :
  production_constraint d vq s = Ok k →
  ∃ b, c_name k = production_name s ∧
       ((c_expr k ≠ [] ∧ c_sense k = LE ∧ c_bound k = b) ∨
        (c_expr k = [] ∧ c_sense k = EQ ∧
         c_bound k = (if Qle_bool 0 b then 0 else 1)%Q)) ∧
       data_pSourceProduction d !! s = Some b ∧
       Forall2 (λ c v, vq !! (s, c) = Some v)
         (filter (λ c, available d s c = true) (data_sCustomers d)) (c_expr k).
Proof.
  unfold production_constraint.
  intros (lhs & Hlhs & (b & Hb & [= <-])%bind_Ok_inv)%bind_Ok_inv.
  apply getitem_Ok in Hb. apply mapM_Ok in Hlhs. exists b.
  assert (Hexpr : Forall2 (λ c v, vq !! (s, c) = Some v)
            (filter (λ c, available d s c = true) (data_sCustomers d)) lhs).
  { eapply Forall2_impl; [exact Hlhs|]. intros c v. by rewrite getitem_Ok. }
  destruct lhs as [|v lhs]; simpl.
  - split; [done|]. split; [by right|]. done.
  - split; [done|]. split; [by left|]. done.
Qed.

(** The row of a demand constraint: over the variables of the customer's
    routes a lower bound by the demand [b]; over no variable the row of the
    bool [0 >= b]. *)
Lemma demand_constraint_Ok vq c k :
  demand_constraint d vq c = Ok k →
  ∃ b, c_name k = demand_name c ∧
       ((c_expr k ≠ [] ∧ c_sense k = GE ∧ c_bound k = b) ∨
        (c_expr k = [] ∧ c_sense k = EQ ∧
         c_bound k = (if Qle_bool b 0 then 0 else 1)%Q)) ∧
       data_pCustomerDemand d !! c = Some b ∧
       Forall2 (λ s v, vq !! (s, c) = Some v)
         (filter (λ s, available d s c = true) (data_sSources d)) (c_expr k).
Proof.
  unfold demand_constraint.
  intros (lhs & Hlhs & (b & Hb & [= <-])%bind_Ok_inv)%bind_Ok_inv.
  apply getitem_Ok in Hb. apply mapM_Ok in Hlhs. exists b.
  assert (Hexpr : Forall2 (λ s v, vq !! (s, c) = Some v)
            (filter (λ s, available d s c = true) (data_sSources d)) lhs).
  { eapply Forall2_impl; [exact Hlhs|]. intros s v. by rewrite getitem_Ok. }
  destruct lhs as [|v lhs]; simpl.
  - split; [done|]. split; [by right|]. done.
  - split; [done|]. split; [by left|]. done.
Qed.

Lemma fixed_constraint_Some vq s c k :
  fixed_constraint d vq s c = Ok (Some k) ↔
  available d s c = true ∧
  ∃ q v, pFixedTransportation d !! (s, c) = Some q ∧ truthy q = true ∧
         vq !! (s, c) = Some v ∧
         k = {| c_expr := [v]; c_sense := EQ; c_bound := q;
                c_name := fixed_name s c |}.
Proof.
  unfold fixed_constraint, getitem.
  destruct (available d s c); [|split; [done | by intros [? _]]].
  destruct (pFixedTransportation d !! (s, c)) as [q|];
    [|split; [done | by intros (_ & ? & ? & ? & _)]].
  rewrite bind_Ok.
  destruct (truthy q) eqn:Hq.
  2:{ split; [done | intros (_ & ? & ? & [= <-] & ? & _); congruence]. }
  destruct (vq !! (s, c)) as [v|];
    [|split; [done | by intros (_ & ? & ? & _ & _ & ? & _)]].
  rewrite !bind_Ok. split.
  - intros [= <-]. split; [done|]. by exists q, v.
  - intros (_ & q' & v' & [= <-] & _ & [= <-] & ->). done.
Qed.

(** The constraints of the third loop are those of the pairs of a source
    and a customer for which the [if] is taken. *)
Lemma elem_of_fixed vq fixed k :
  Forall2 (λ s ks, fixed_of_source d vq s = Ok ks) (data_sSources d) fixed →
  k ∈ concat fixed ↔
  ∃ s c, s ∈ data_sSources d ∧ c ∈ data_sCustomers d ∧
         fixed_constraint d vq s c = Ok (Some k).
Proof.
  intros Hfixed. rewrite elem_of_concat. split.
  - intros (ks & Hk & Hks).
    apply list_elem_of_lookup in Hks as [i Hi].
    destruct (Forall2_lookup_r _ _ _ _ _ Hfixed Hi) as (s & Hs & Hemit).
    unfold fixed_of_source in Hemit.
    apply bind_Ok_inv in Hemit as (oks & Hoks & [= <-]).
    apply list_elem_of_omap in Hk as (ok & Hok & Hid).
    unfold id in Hid. subst ok.
    apply mapM_Ok in Hoks.
    apply list_elem_of_lookup in Hok as [j Hj].
    destruct (Forall2_lookup_r _ _ _ _ _ Hoks Hj) as (c & Hc & Hkc).
    exists s, c. eauto using list_elem_of_lookup_2.
  - intros (s & c & Hs & Hc & Hkc).
    apply list_elem_of_lookup in Hs as [i Hi].
    destruct (Forall2_lookup_l _ _ _ _ _ Hfixed Hi) as (ks & Hks & Hemit).
    exists ks. split; [|eauto using list_elem_of_lookup_2].
    unfold fixed_of_source in Hemit.
    apply bind_Ok_inv in Hemit as (oks & Hoks & [= <-]).
    apply mapM_Ok in Hoks.
    apply list_elem_of_lookup in Hc as [j Hj].
    destruct (Forall2_lookup_l _ _ _ _ _ Hoks Hj) as (ok & Hok & Hkc').
    rewrite Hkc in Hkc'. injection Hkc' as <-.
    apply list_elem_of_omap. exists (Some k).
    eauto using list_elem_of_lookup_2.
Qed.

End Shape.

(** ** When construction completes *)

Section Completes.

Variable d : data.

Lemma truthy_true (q : Q) : truthy q = true ↔ ¬ (q == 0)%Q.
Proof.
  unfold truthy. rewrite negb_true_iff, <- not_true_iff_false.
  by rewrite Qeq_bool_iff.
Qed.

Lemma truthy_false (q : Q) : truthy q = false ↔ (q == 0)%Q.
Proof.
  unfold truthy. rewrite negb_false_iff. apply Qeq_bool_iff.
Qed.

Lemma available_true (s c : string) :
  available d s c = true ↔ (s, c) ∈ sSources_Customers d.
Proof. unfold available. apply bool_decide_eq_true. Qed.

Lemma sSources_Customers_costs (sc : route) :
  sc ∈ sSources_Customers d ↔ is_Some (pTransportationCosts d !! sc).
Proof.
  rewrite <- elem_of_dom. unfold pTransportationCosts.
  rewrite dict_of_items_dom. unfold sSources_Customers. set_solver.
Qed.

Let vq := (create_variables d CreateSolver).1.

Lemma handles_defined (l : list string) (key : string → route) :
  Forall (λ x, key x ∈ sources_customers d) l →
  ∃ lhs, mapM (λ x, getitem vq (key x)) l = Ok lhs.
Proof.
  intros Hl. apply mapM_defined. eapply Forall_impl; [exact Hl|].
  intros x Hx. simpl in Hx.
  destruct (key x) as [s c] eqn:Hk.
  apply elem_of_sources_customers, create_variables_lookup in Hx as [v Hv].
  exists v. by apply getitem_Ok.
Qed.

Lemma production_constraint_defined (s : string) :
  s ∈ data_sSources d → is_Some (data_pSourceProduction d !! s) →
  ∃ k, production_constraint d vq s = Ok k.
Proof.
  intros Hs [b Hb]. unfold production_constraint.
  destruct (handles_defined
              (filter (λ c, available d s c = true) (data_sCustomers d))
              (λ c, (s, c))) as [lhs Hlhs].
  { apply Forall_forall. intros c [Hav Hc]%list_elem_of_filter.
    apply elem_of_sources_customers. by rewrite <- available_true. }
  rewrite Hlhs, bind_Ok. apply getitem_Ok in Hb. rewrite Hb. eauto.
Qed.

Lemma demand_constraint_defined (c : string) :
  c ∈ data_sCustomers d → is_Some (data_pCustomerDemand d !! c) →
  ∃ k, demand_constraint d vq c = Ok k.
Proof.
  intros Hc [b Hb]. unfold demand_constraint.
  destruct (handles_defined
              (filter (λ s, available d s c = true) (data_sSources d))
              (λ s, (s, c))) as [lhs Hlhs].
  { apply Forall_forall. intros s [Hav Hs]%list_elem_of_filter.
    apply elem_of_sources_customers. by rewrite <- available_true. }
  rewrite Hlhs, bind_Ok. apply getitem_Ok in Hb. rewrite Hb. eauto.
Qed.

Lemma fixed_constraint_defined (s c : string) :
  s ∈ data_sSources d → c ∈ data_sCustomers d →
  ((s, c) ∈ sources_customers d → is_Some (pFixedTransportation d !! (s, c))) →
  ∃ ok, fixed_constraint d vq s c = Ok ok.
Proof.
  intros Hs Hc Hfix. unfold fixed_constraint.
  destruct (available d s c) eqn:Hav; [|eauto].
  apply available_true in Hav.
  assert (Hsc : (s, c) ∈ sources_customers d)
    by by apply elem_of_sources_customers.
  destruct (Hfix Hsc) as [q Hq]. apply getitem_Ok in Hq. rewrite Hq, !bind_Ok.
  destruct (truthy q); [|eauto].
  apply elem_of_sources_customers, create_variables_lookup in Hsc as [v Hv].
  apply getitem_Ok in Hv. fold vq in Hv. rewrite Hv, !bind_Ok. eauto.
Qed.

Lemma objective_terms_defined : ∃ terms, objective_terms d vq = Ok terms.
Proof.
  apply mapM_defined, Forall_forall. intros [s c] Hsc.
  pose proof Hsc as Hsc'.
  apply elem_of_sources_customers in Hsc as (_ & _ & [q Hq]%sSources_Customers_costs).
  apply elem_of_sources_customers, create_variables_lookup in Hsc' as [v Hv].
  apply getitem_Ok in Hq, Hv. fold vq in Hv. rewrite Hq, bind_Ok, Hv. eauto.
Qed.

(** With every lookup defined the construction returns a model. *)
Lemma create_the_model_defined :
  lookups_defined d → ∃ sv, create_the_model d = Ok (vq, sv).
Proof.
  intros (Hprod & Hdem & Hfix). rewrite create_the_model_unfold. cbv zeta.
  fold vq.
  destruct (mapM_defined (production_constraint d vq) (data_sSources d))
    as [caps ->].
  { apply Forall_forall. intros s Hs.
    apply production_constraint_defined; [done|].
    by eapply Forall_forall in Hprod. }
  destruct (mapM_defined (demand_constraint d vq) (data_sCustomers d))
    as [dems ->].
  { apply Forall_forall. intros c Hc.
    apply demand_constraint_defined; [done|].
    by eapply Forall_forall in Hdem. }
  destruct (mapM_defined (fixed_of_source d vq) (data_sSources d))
    as [fixed ->].
  { apply Forall_forall. intros s Hs. unfold fixed_of_source.
    destruct (mapM_defined (fixed_constraint d vq s) (data_sCustomers d))
      as [oks ->]; [|eauto].
    apply Forall_forall. intros c Hc.
    apply fixed_constraint_defined; [done..|].
    intros Hsc. by eapply Forall_forall in Hfix. }
  destruct objective_terms_defined as [terms ->].
  rewrite !bind_Ok. eauto.
Qed.

(** And only then: a model has been returned only if every lookup was
    defined. *)
Lemma create_the_model_Ok_defined (vq' : gmap route nat) (sv : solver) :
  create_the_model d = Ok (vq', sv) → lookups_defined d.
Proof.
  intros (-> & caps & dems & fixed & terms & Hcaps & Hdems & Hfixed & _)
    %create_the_model_Ok.
  fold vq in Hcaps, Hdems, Hfixed.
  split; [|split]; apply Forall_forall.
  - intros s [i Hi]%list_elem_of_lookup.
    destruct (Forall2_lookup_l _ _ _ _ _ Hcaps Hi) as (k & _ & Hk).
    apply production_constraint_Ok in Hk as (b & _ & _ & Hb & _). eauto.
  - intros c [i Hi]%list_elem_of_lookup.
    destruct (Forall2_lookup_l _ _ _ _ _ Hdems Hi) as (k & _ & Hk).
    apply demand_constraint_Ok in Hk as (b & _ & _ & Hb & _). eauto.
  - intros [s c] (Hs & Hc & Hav)%elem_of_sources_customers.
    apply list_elem_of_lookup in Hs as [i Hi].
    destruct (Forall2_lookup_l _ _ _ _ _ Hfixed Hi) as (ks & _ & Hks).
    unfold fixed_of_source in Hks.
    apply bind_Ok_inv in Hks as (oks & Hoks%mapM_Ok & _).
    apply list_elem_of_lookup in Hc as [j Hj].
    destruct (Forall2_lookup_l _ _ _ _ _ Hoks Hj) as (ok & _ & Hok).
    unfold fixed_constraint in Hok.
    apply available_true in Hav. rewrite Hav in Hok.
    apply bind_Ok_inv in Hok as (q & Hq%getitem_Ok & _). eauto.
Qed.

(** The construction raises nothing but [KeyError]. *)
Lemma create_the_model_Raise (e : exn) :
  create_the_model d = Raise e → ¬ lookups_defined d ∧ e = KeyError.
Proof.
  intros Hraise. split.
  - intros [sv Hsv]%create_the_model_defined. congruence.
  - revert e Hraise. rewrite create_the_model_unfold. cbv zeta.
    change (raises_only_KeyError
      (caps ← mapM (production_constraint d vq) (data_sSources d);
       dems ← mapM (demand_constraint d vq) (data_sCustomers d);
       fixed ← mapM (fixed_of_source d vq) (data_sSources d);
       terms ← objective_terms d vq;
       Ok (vq, {| variables := quantity_variable <$> sources_customers d;
                  constraints := caps ++ dems ++ concat fixed;
                  objective := terms |}))).
    unfold production_constraint, demand_constraint, fixed_of_source,
      fixed_constraint, objective_terms.
    repeat first
      [ apply raises_only_bind; [|intros ?]
      | apply raises_only_mapM; intros ?
      | apply raises_only_getitem
      | apply raises_only_Ok
      | match goal with |- context [if ?b then _ else _] => destruct b end ].
Qed.

End Completes.

(** ** Properties of model construction *)

Lemma create_the_model_example :
  create_the_model data_example = Ok (vq_example, solver_example).
Proof. vm_compute. reflexivity. Qed.

(** C1 (as amended).  The decision variables of a constructed model are
    the keys of the cost table whose source is in the list of sources and
    whose customer is in the list of customers: a variable exists for a pair
    exactly when the pair is such a key, each variable is the non-negative,
    unbounded-above variable declared under the pair's name, the solver
    holds no variable of another pair, and the set of variables is the
    whole key set exactly when every key joins a listed source to a listed
    customer. *)
Theorem variables_are_listed_cost_keys (d : data) (vq : gmap route nat)
    (sv : solver) :
  create_the_model d = Ok (vq, sv) →
  dom vq = filter (λ sc, sc.1 ∈ data_sSources d ∧ sc.2 ∈ data_sCustomers d)
                  (dom (pTransportationCosts d)) ∧
  (∀ s c, is_Some (vq !! (s, c)) ↔
          s ∈ data_sSources d ∧ c ∈ data_sCustomers d ∧
          is_Some (pTransportationCosts d !! (s, c))) ∧
  (∀ sc v, vq !! sc = Some v →
           variables sv !! v
           = Some {| v_lb := Fin 0; v_ub := PInf;
                     v_name := variable_name sc.1 sc.2 |}) ∧
  (∀ i x, variables sv !! i = Some x →
          ∃ sc, sc ∈ dom vq ∧
                x = {| v_lb := Fin 0; v_ub := PInf;
                       v_name := variable_name sc.1 sc.2 |}) ∧
  (dom vq = dom (pTransportationCosts d) ↔
   ∀ sc, sc ∈ dom (pTransportationCosts d) →
         sc.1 ∈ data_sSources d ∧ sc.2 ∈ data_sCustomers d).
Proof.
  intros Hmodel.
  destruct (create_the_model_Ok d vq sv Hmodel)
    as (Hvq & caps & dems & fixed & terms & _ & _ & _ & _ & Hsv).
  assert (Hkeys : ∀ s c, is_Some (vq !! (s, c)) ↔
            s ∈ data_sSources d ∧ c ∈ data_sCustomers d ∧
            is_Some (pTransportationCosts d !! (s, c))).
  { intros s c. rewrite Hvq, create_variables_lookup.
    by rewrite sSources_Customers_costs. }
  assert (Hdom : dom vq
            = filter (λ sc, sc.1 ∈ data_sSources d ∧ sc.2 ∈ data_sCustomers d)
                     (dom (pTransportationCosts d))).
  { apply set_eq. intros [s c].
    rewrite elem_of_filter, !elem_of_dom, Hkeys. simpl. tauto. }
  split; [done|]. split; [done|]. split; [|split].
  - intros sc v Hv. rewrite Hvq in Hv.
    apply (create_variables_handles_ok d) in Hv.
    rewrite create_variables_solver in Hv. rewrite Hsv. exact Hv.
  - rewrite Hsv. simpl. intros i x (sc & -> & Hsc)%list_lookup_fmap_Some.
    exists sc. split; [|done].
    apply list_elem_of_lookup_2 in Hsc. destruct sc as [s c].
    apply elem_of_sources_customers, create_variables_lookup in Hsc.
    rewrite <- Hvq in Hsc. by apply elem_of_dom.
  - rewrite Hdom. split.
    + intros Heq sc Hsc. rewrite <- Heq in Hsc.
      by apply elem_of_filter in Hsc as [? _].
    + intros Hall. apply set_eq. intros sc. rewrite elem_of_filter.
      split; [tauto | eauto].
Qed.

Lemma variables_are_listed_cost_keys_witness :
  create_the_model data_example = Ok (vq_example, solver_example) ∧
  dom vq_example
  = filter (λ sc, sc.1 ∈ data_sSources data_example
                  ∧ sc.2 ∈ data_sCustomers data_example)
           (dom (pTransportationCosts data_example)).
Proof.
  assert (H : create_the_model data_example = Ok (vq_example, solver_example))
    by (vm_compute; reflexivity).
  split; [exact H|].
  exact (proj1 (variables_are_listed_cost_keys _ _ _ H)).
Defined.

(** C1 as stated fails: the cost table of [data_stray] has the key
    [("Gou", "Ams")], the model is constructed, and no variable exists for
    that pair. *)
Lemma variables_miss_unlisted_source :
  ∃ vq sv, create_the_model data_stray = Ok (vq, sv) ∧
           ("Gou", "Ams") ∈ dom (pTransportationCosts data_stray) ∧
           (("Gou", "Ams") ∉ dom vq) ∧
           (dom vq ≠ dom (pTransportationCosts data_stray)).
Proof.
  destruct (create_the_model_defined data_stray) as [sv Hsv].
  { apply (bool_decide_unpack _). vm_compute. exact I. }
  eexists _, sv. split; [exact Hsv|].
  assert (Hin : ("Gou", "Ams") ∈ dom (pTransportationCosts data_stray)).
  { apply elem_of_dom, (bool_decide_unpack _). vm_compute. exact I. }
  assert (Hout : ("Gou", "Ams") ∉ dom (create_variables data_stray CreateSolver).1).
  { rewrite elem_of_dom. apply (bool_decide_unpack _). vm_compute. exact I. }
  split; [done|]. split; [done|]. intros Heq. by rewrite Heq in Hout.
Qed.

(** C2 (as amended).  For a source code and a customer code of exactly
    three characters, the suffix slices recover the pair from the variable
    identifier, and the kind and the location from the identifiers of the
    capacity and demand constraints; from the identifier of a fixed-flow
    constraint they recover the kind and the customer code. *)
Theorem identifiers_round_trip (s c : string) :
  String.length s = 3%nat → String.length c = 3%nat →
  decode_variable_name (variable_name s c) = (s, c) ∧
  decode_constraint_name (production_name s) = Ok (1, s) ∧
  decode_constraint_name (demand_name c) = Ok (2, c) ∧
  decode_constraint_name (fixed_name s c) = Ok (3, c).
Proof.
  intros Hs Hc.
  auto using decode_variable_name_ok, decode_production_name,
    decode_demand_name, decode_fixed_name.
Qed.

Lemma identifiers_round_trip_witness :
  decode_variable_name (variable_name "Arn" "Ams") = ("Arn", "Ams") ∧
  decode_constraint_name (production_name "Arn") = Ok (1, "Arn") ∧
  decode_constraint_name (demand_name "Ams") = Ok (2, "Ams") ∧
  decode_constraint_name (fixed_name "Arn" "Ams") = Ok (3, "Ams").
Proof. apply (identifiers_round_trip "Arn" "Ams"); reflexivity. Defined.

(** C2 as stated fails: [data_long] has the route [("Paris", "Rome")], its
    variable is declared, and the slices of the variable's name are not the
    pair; nor is the location decoded from the capacity constraint's name
    the source. *)
Lemma long_codes_do_not_round_trip :
  ∃ vq sv v x,
    create_the_model data_long = Ok (vq, sv) ∧
    vq !! ("Paris", "Rome") = Some v ∧ variables sv !! v = Some x ∧
    v_name x = variable_name "Paris" "Rome" ∧
    decode_variable_name (v_name x) = ("is_", "ome") ∧
    decode_variable_name (v_name x) ≠ ("Paris", "Rome") ∧
    decode_constraint_name (production_name "Paris") = Ok (1, "ris").
Proof.
  exists {[ ("Paris", "Rome") := 0%nat ]}.
  eexists _, 0%nat, (quantity_variable ("Paris", "Rome")).
  split; [vm_compute; reflexivity|].
  repeat split; try (vm_compute; reflexivity).
  vm_compute. discriminate.
Qed.

(** The ordinal tag is recovered whatever the length of the codes. *)
Lemma constraint_number_of_names (s c : string) :
  PyStr.int (PyStr.slice (production_name s) (Some 2) (Some 3)) = Ok 1 ∧
  PyStr.int (PyStr.slice (demand_name c) (Some 2) (Some 3)) = Ok 2 ∧
  PyStr.int (PyStr.slice (fixed_name s c) (Some 2) (Some 3)) = Ok 3.
Proof.
  unfold production_name, demand_name, fixed_name.
  by rewrite !slice_2_3_append.
Qed.

(** C3 (as amended).  When every lookup of the construction is defined, in
    particular when the table of fixed quantities has an entry for every
    route that joins a listed source to a listed customer, the construction
    completes without error, and for such a route whose fixed quantity is
    zero no equality constraint on the route's variable is emitted. *)
Theorem zero_fixed_quantity_emits_nothing (d : data) :
  lookups_defined d →
  ∃ vq sv,
    create_the_model d = Ok (vq, sv) ∧
    ∀ s c q v,
      (s, c) ∈ sSources_Customers d →
      pFixedTransportation d !! (s, c) = Some q → (q == 0)%Q →
      vq !! (s, c) = Some v →
      ∀ k, k ∈ constraints sv → c_sense k = EQ → c_expr k ≠ [v].
Proof.
  intros Hdef. destruct (create_the_model_defined d Hdef) as [sv Hsv].
  eexists _, sv. split; [exact Hsv|].
  intros s c q v Hav Hq Hzero Hv k Hk Hsense Hexpr.
  destruct (create_the_model_Ok d _ sv Hsv)
    as (_ & caps & dems & fixed & terms & Hcaps & Hdems & Hfixed & _ & ->).
  simpl in Hk. rewrite !elem_of_app in Hk. destruct Hk as [Hk|[Hk|Hk]].
  - apply list_elem_of_lookup in Hk as [i Hi].
    destruct (Forall2_lookup_r _ _ _ _ _ Hcaps Hi) as (s' & _ & Hk).
    apply production_constraint_Ok in Hk
      as (b & _ & [(_ & ? & _)|(? & _)] & _); congruence.
  - apply list_elem_of_lookup in Hk as [i Hi].
    destruct (Forall2_lookup_r _ _ _ _ _ Hdems Hi) as (c' & _ & Hk).
    apply demand_constraint_Ok in Hk
      as (b & _ & [(_ & ? & _)|(? & _)] & _); congruence.
  - apply (elem_of_fixed d _ _ _ Hfixed) in Hk as (s' & c' & _ & _ & Hk).
    apply fixed_constraint_Some in Hk
      as (_ & q' & v' & Hq' & Htruthy & Hv' & ->).
    simpl in Hexpr. injection Hexpr as ->.
    assert (Heq : (s', c') = (s, c))
      by exact (proj2 (create_variables_handles_ok d) _ _ _ Hv' Hv).
    injection Heq as -> ->.
    rewrite Hq in Hq'. injection Hq' as <-.
    apply truthy_true in Htruthy. contradiction.
Qed.

Lemma zero_fixed_quantity_emits_nothing_witness :
  lookups_defined data_example ∧
  ∃ vq sv, create_the_model data_example = Ok (vq, sv) ∧
    ∀ s c q v,
      (s, c) ∈ sSources_Customers data_example →
      pFixedTransportation data_example !! (s, c) = Some q → (q == 0)%Q →
      vq !! (s, c) = Some v →
      ∀ k, k ∈ constraints sv → c_sense k = EQ → c_expr k ≠ [v].
Proof.
  assert (H : lookups_defined data_example)
    by (apply (bool_decide_unpack _); vm_compute; exact I).
  split; [exact H|]. exact (zero_fixed_quantity_emits_nothing data_example H).
Defined.

(** C3 as stated fails: the base case with no entry in the table of fixed
    quantities has the route [("Arn", "Ams")] in its cost table, and the
    construction raises [KeyError]. *)
Lemma absent_fixed_quantity_raises :
  ("Arn", "Ams") ∈ sSources_Customers data_unfixed ∧
  pFixedTransportation data_unfixed !! ("Arn", "Ams") = None ∧
  create_the_model data_unfixed = Raise KeyError.
Proof.
  split; [|split]; [|vm_compute; reflexivity..].
  apply (bool_decide_unpack _). vm_compute. exact I.
Qed.

(** An absent entry always stops the construction. *)
Lemma absent_fixed_quantity_raises_always (d : data) (s c : string) :
  s ∈ data_sSources d → c ∈ data_sCustomers d →
  (s, c) ∈ sSources_Customers d →
  pFixedTransportation d !! (s, c) = None →
  create_the_model d = Raise KeyError.
Proof.
  intros Hs Hc Hav Hnone.
  destruct (create_the_model d) as [[vq sv]|e] eqn:Hmodel.
  - apply create_the_model_Ok_defined in Hmodel as (_ & _ & Hfix).
    eapply Forall_forall in Hfix; [|by apply elem_of_sources_customers].
    rewrite Hnone in Hfix. by destruct Hfix.
  - by apply create_the_model_Raise in Hmodel as [_ ->].
Qed.

Lemma filter_none {A} (P : A → Prop) `{∀ x, Decision (P x)} (l : list A) :
  Forall (λ x, ¬ P x) l → filter P l = [].
Proof.
  induction 1 as [|x l Hx _ IH]; [done|].
  by rewrite filter_cons_False.
Qed.

(** C7.  The constraints of a constructed model are, in order: exactly one
    capacity constraint per element of the list of sources, exactly one
    demand constraint per element of the list of customers, and equality
    constraints, each of them for a route that joins a listed source to a
    listed customer and whose fixed quantity is present and not zero.  The
    capacity constraint of a source with routes is the upper bound by the
    source's production on the sum of the variables of its routes; that of a
    source without routes has an empty left-hand side: it is the row that
    the solver keeps for the bool [0 <= production], which every assignment
    satisfies when the production is not negative.  In both cases the
    assignments that satisfy the row are those whose sum over the variables
    of the source's routes is at most the production.  Likewise for the
    demand constraint of a customer, a lower bound by the demand, or the
    row of the bool [0 >= demand] for a customer that no source serves. *)
Theorem one_constraint_per_source_and_customer (d : data)
    (vq : gmap route nat) (sv : solver) :
  create_the_model d = Ok (vq, sv) →
  ∃ caps dems fixed,
    constraints sv = caps ++ dems ++ fixed ∧
    Forall2 (λ s k,
        c_name k = production_name s ∧
        ∃ b, data_pSourceProduction d !! s = Some b ∧
          Forall2 (λ c v, vq !! (s, c) = Some v)
            (filter (λ c, (s, c) ∈ sSources_Customers d) (data_sCustomers d))
            (c_expr k) ∧
          (c_expr k ≠ [] → c_sense k = LE ∧ c_bound k = b) ∧
          ((∀ c, c ∈ data_sCustomers d → (s, c) ∉ sSources_Customers d) →
           c_expr k = [] ∧ c_sense k = EQ ∧
           c_bound k = (if Qle_bool 0 b then 0 else 1)%Q ∧
           ((0 <= b)%Q → ∀ x, satisfies x k = true)) ∧
          (∀ x, satisfies x k = Qle_bool (lhs_value x (c_expr k)) b))
      (data_sSources d) caps ∧
    Forall2 (λ c k,
        c_name k = demand_name c ∧
        ∃ b, data_pCustomerDemand d !! c = Some b ∧
          Forall2 (λ s v, vq !! (s, c) = Some v)
            (filter (λ s, (s, c) ∈ sSources_Customers d) (data_sSources d))
            (c_expr k) ∧
          (c_expr k ≠ [] → c_sense k = GE ∧ c_bound k = b) ∧
          ((∀ s, s ∈ data_sSources d → (s, c) ∉ sSources_Customers d) →
           c_expr k = [] ∧ c_sense k = EQ ∧
           c_bound k = (if Qle_bool b 0 then 0 else 1)%Q ∧
           ((b <= 0)%Q → ∀ x, satisfies x k = true)) ∧
          (∀ x, satisfies x k = Qle_bool b (lhs_value x (c_expr k))))
      (data_sCustomers d) dems ∧
    (∀ k, k ∈ fixed →
       ∃ s c q v,
         s ∈ data_sSources d ∧ c ∈ data_sCustomers d ∧
         (s, c) ∈ sSources_Customers d ∧
         pFixedTransportation d !! (s, c) = Some q ∧ ¬ (q == 0)%Q ∧
         vq !! (s, c) = Some v ∧
         k = {| c_expr := [v]; c_sense := EQ; c_bound := q;
                c_name := fixed_name s c |}).
Proof.
  intros Hmodel.
  destruct (create_the_model_Ok d vq sv Hmodel)
    as (_ & caps & dems & fixed & terms & Hcaps & Hdems & Hfixed & _ & ->).
  exists caps, dems, (concat fixed). split; [done|].
  assert (Hfilter : ∀ (l : list string) (key : string → route),
            filter (λ x, available d (key x).1 (key x).2 = true) l
            = filter (λ x, key x ∈ sSources_Customers d) l).
  { intros l key. apply list_filter_iff. intros x.
    destruct (key x). apply available_true. }
  assert (Hrow : ∀ (k : constraint) (l : list string) (key : string → route)
                   (sense : sense) (b : Q) (t : bool),
            (c_expr k ≠ [] ∧ c_sense k = sense ∧ c_bound k = b) ∨
            (c_expr k = [] ∧ c_sense k = EQ ∧
             c_bound k = (if t then 0 else 1)%Q) →
            Forall2 (λ a v, vq !! key a = Some v)
              (filter (λ a, key a ∈ sSources_Customers d) l) (c_expr k) →
            (c_expr k ≠ [] → c_sense k = sense ∧ c_bound k = b) ∧
            ((∀ a, a ∈ l → key a ∉ sSources_Customers d) →
             c_expr k = [] ∧ c_sense k = EQ ∧
             c_bound k = (if t then 0 else 1)%Q ∧
             (t = true → ∀ x, satisfies x k = true))).
  { intros k l key sense b t Hcases Hexpr. split.
    - intros Hne. by destruct Hcases as [(_ & ? & ?)|(? & _)].
    - intros Hnone. rewrite filter_none in Hexpr
        by (apply Forall_forall; intros a Ha; by apply Hnone).
      inversion Hexpr as [Hnil|].
      destruct Hcases as [(Hne & _)|(Hempty & Hsense & Hbound)]; [congruence|].
      do 3 (split; [done|]). intros -> x.
      unfold satisfies. by rewrite Hsense, Hbound, Hempty. }
  split; [|split].
  - eapply Forall2_impl; [exact Hcaps|]. intros s k Hk.
    apply production_constraint_Ok in Hk as (b & Hname & Hcases & Hb & Hexpr).
    rewrite (Hfilter _ (λ c, (s, c))) in Hexpr.
    split; [done|]. exists b. split; [done|]. split; [done|].
    destruct (Hrow k _ (λ c, (s, c)) LE b (Qle_bool 0 b) Hcases Hexpr)
      as [Hfull Hempty].
    split; [done|]. split.
    { intros Hnone. destruct (Hempty Hnone) as (? & ? & ? & Hvac).
      do 3 (split; [done|]). intros Hle. by apply Hvac, Qle_bool_iff. }
    intros x. unfold satisfies.
    destruct Hcases as [(_ & -> & ->)|(-> & -> & ->)]; [done|].
    change (lhs_value x []) with 0%Q. by destruct (Qle_bool _ _).
  - eapply Forall2_impl; [exact Hdems|]. intros c k Hk.
    apply demand_constraint_Ok in Hk as (b & Hname & Hcases & Hb & Hexpr).
    rewrite (Hfilter _ (λ s, (s, c))) in Hexpr.
    split; [done|]. exists b. split; [done|]. split; [done|].
    destruct (Hrow k _ (λ s, (s, c)) GE b (Qle_bool b 0) Hcases Hexpr)
      as [Hfull Hempty].
    split; [done|]. split.
    { intros Hnone. destruct (Hempty Hnone) as (? & ? & ? & Hvac).
      do 3 (split; [done|]). intros Hle. by apply Hvac, Qle_bool_iff. }
    intros x. unfold satisfies.
    destruct Hcases as [(_ & -> & ->)|(-> & -> & ->)]; [done|].
    change (lhs_value x []) with 0%Q. by destruct (Qle_bool _ _).
  - intros k (s & c & Hs & Hc & Hk)%(elem_of_fixed d _ _ _ Hfixed).
    apply fixed_constraint_Some in Hk
      as (Hav%available_true & q & v & Hq & Htruthy%truthy_true & Hv & ->).
    by exists s, c, q, v.
Qed.

Lemma one_constraint_per_source_and_customer_witness :
  create_the_model data_example = Ok (vq_example, solver_example) ∧
  ∃ caps dems fixed,
    constraints solver_example = caps ++ dems ++ fixed ∧
    length caps = length (data_sSources data_example) ∧
    length dems = length (data_sCustomers data_example).
Proof.
  assert (H : create_the_model data_example = Ok (vq_example, solver_example))
    by (vm_compute; reflexivity).
  split; [exact H|].
  destruct (one_constraint_per_source_and_customer _ _ _ H)
    as (caps & dems & fixed & Heq & Hcaps & Hdems & _).
  exists caps, dems, fixed. split; [exact Heq|].
  split; symmetry; eapply Forall2_length; eassumption.
Defined.

Section Pinned.

Lemma lhs_value_singleton (x : nat → Q) (v : nat) :
  (lhs_value x [v] == x v)%Q.
Proof. unfold lhs_value. simpl. ring. Qed.

Lemma satisfies_all_elem (x : nat → Q) (sv : solver) (k : constraint) :
  satisfies_all x sv = true → k ∈ constraints sv → satisfies x k = true.
Proof.
  unfold satisfies_all. rewrite forallb_forall. intros Hall Hk.
  by apply Hall, list_elem_of_In.
Qed.

End Pinned.

(** C9.  For every route that has a variable and whose fixed quantity is
    present and not zero, the model contains the equality constraint of
    that variable with the fixed quantity, and every assignment that
    satisfies the constraints of the model gives the variable that
    quantity. *)
Theorem fixed_quantity_is_pinned (d : data) (vq : gmap route nat)
    (sv : solver) (s c : string) (q : Q) (v : nat) :
  create_the_model d = Ok (vq, sv) →
  vq !! (s, c) = Some v →
  pFixedTransportation d !! (s, c) = Some q → ¬ (q == 0)%Q →
  {| c_expr := [v]; c_sense := EQ; c_bound := q; c_name := fixed_name s c |}
    ∈ constraints sv ∧
  ∀ x, satisfies_all x sv = true → (x v == q)%Q.
Proof.
  intros Hmodel Hv Hq Hnz.
  destruct (create_the_model_Ok d vq sv Hmodel)
    as (Hvq & caps & dems & fixed & terms & _ & _ & Hfixed & _ & Hsv).
  assert (Hin : {| c_expr := [v]; c_sense := EQ; c_bound := q;
                   c_name := fixed_name s c |} ∈ constraints sv).
  { rewrite Hsv. simpl. rewrite !elem_of_app. right; right.
    apply (elem_of_fixed d _ _ _ Hfixed).
    assert (Hsc : is_Some (vq !! (s, c))) by eauto.
    rewrite Hvq in Hsc. apply create_variables_lookup in Hsc as (Hs & Hc & Hav).
    exists s, c. split; [done|]. split; [done|].
    apply fixed_constraint_Some. split; [by apply available_true|].
    exists q, v. by rewrite truthy_true. }
  split; [exact Hin|].
  intros x Hall. pose proof (satisfies_all_elem x sv _ Hall Hin) as Hsat.
  unfold satisfies in Hsat. simpl in Hsat.
  apply Qeq_bool_iff in Hsat. by rewrite <- Hsat, lhs_value_singleton.
Qed.

Lemma fixed_quantity_is_pinned_witness :
  create_the_model data_example = Ok (vq_example, solver_example) ∧
  satisfies_all flow_example solver_example = true ∧
  (flow_example 0 == 1)%Q.
Proof.
  assert (H : create_the_model data_example = Ok (vq_example, solver_example))
    by (vm_compute; reflexivity).
  split; [exact H|]. split; [vm_compute; reflexivity|].
  refine (proj2 (fixed_quantity_is_pinned data_example vq_example
                   solver_example "Arn" "Ams" 1%Q 0%nat H _ _ _)
            flow_example _);
    [vm_compute; reflexivity | vm_compute; reflexivity
    | vm_compute; discriminate | vm_compute; reflexivity].
Defined.

(** ** The narration functions *)

Section Narration.

(** The constraint narration decodes the name, rounds, and then words the
    sign of the rounded price; it is silent on an ordinal above 2. *)
Lemma print_conclusions_constraints_eq (constraint_name : string)
    (shadow_price : xnum) (sources : list string) :
  print_conclusions_constraints_sensibility_analysis
    constraint_name shadow_price sources
  = nl ← decode_constraint_name constraint_name;
    Ok (if nl.1 <=? 2
        then [constraint_sentence (side_of sources nl.2) nl.2
                (classify_by_sign (X.round2 shadow_price))]
        else []).
Proof.
  unfold print_conclusions_constraints_sensibility_analysis.
  destruct (decode_constraint_name constraint_name) as [[n loc]|e]; [|done].
  rewrite !bind_Ok. unfold side_of, classify_by_sign. simpl fst. simpl snd.
  destruct (n <=? 2); simpl andb; [|done].
  destruct (PyStr.contains sources loc);
    destruct (X.ltb (X.round2 shadow_price) X.zero);
    try destruct (X.ltb X.zero (X.round2 shadow_price)); reflexivity.
Qed.

(** The variable narration decodes the name, rounds, and then words the
    sign of the rounded reduced cost. *)
Lemma print_conclusions_variables_eq (variable_name : string)
    (reduced_cost : xnum) :
  print_conclusions_variables_sensibility_analysis variable_name reduced_cost
  = [variable_sentence (decode_variable_name variable_name).1
       (decode_variable_name variable_name).2
       (classify_by_sign (X.round2 reduced_cost))].
Proof.
  unfold print_conclusions_variables_sensibility_analysis.
  destruct (decode_variable_name variable_name) as [source customer].
  unfold classify_by_sign. simpl fst. simpl snd.
  destruct (X.ltb (X.round2 reduced_cost) X.zero);
    try destruct (X.ltb X.zero (X.round2 reduced_cost)); reflexivity.
Qed.

Lemma contains_true (l : list string) (x : string) :
  PyStr.contains l x = true ↔ x ∈ l.
Proof. unfold PyStr.contains. apply bool_decide_eq_true. Qed.

End Narration.

Section Rounding.

(** A value within a half of zero rounds to zero. *)
Lemma round_half_even_small (y : Q) :
  (-(1 # 2) <= y)%Q → (y <= 1 # 2)%Q → X.round_half_even y = 0.
Proof.
  intros Hlo Hhi. unfold X.round_half_even. destruct y as [n dd].
  unfold Qle in Hlo, Hhi. simpl in Hlo, Hhi.
  assert (Hfloor : n / Z.pos dd = -1 ∨ n / Z.pos dd = 0).
  { destruct (Z.neg_nonneg_cases n) as [Hneg|Hpos].
    - left. symmetry. apply (Z.div_unique n (Z.pos dd) (-1) (n + Z.pos dd)); lia.
    - right. apply Z.div_small. lia. }
  unfold Qfloor.
  destruct Hfloor as [-> | ->];
    unfold Qcompare, Qminus, Qplus, Qopp, inject_Z; simpl Qnum; simpl Qden;
    match goal with |- context [?a ?= ?b] => destruct (Z.compare_spec a b) end;
    try done; lia.
Qed.

(** A price within half a hundredth of zero is worded as no change. *)
Lemma small_price_remains_equal (q : Q) :
  (-(1 # 200) <= q)%Q → (q <= 1 # 200)%Q →
  classify_by_sign (X.round2 (Fin q)) = Remain_equal.
Proof.
  intros Hlo Hhi. unfold X.round2.
  rewrite round_half_even_small; [done | |].
  - destruct q as [n dd]. unfold Qle in *. simpl in *. lia.
  - destruct q as [n dd]. unfold Qle in *. simpl in *. lia.
Qed.

End Rounding.

Section Thresholds.

Lemma round_half_even_above (y : Q) :
  (1 # 2 < y)%Q → 1 <= X.round_half_even y.
Proof.
  intros Hy. unfold X.round_half_even. destruct y as [n dd].
  unfold Qlt in Hy. simpl in Hy. unfold Qfloor.
  pose proof (Z.div_mod n (Z.pos dd) ltac:(lia)) as Hdiv.
  pose proof (Z.mod_pos_bound n (Z.pos dd) ltac:(lia)) as Hmod.
  assert (Hf : 0 <= n / Z.pos dd) by (apply Z.div_pos; lia).
  unfold Qcompare, Qminus, Qplus, Qopp, inject_Z; simpl Qnum; simpl Qden.
  match goal with |- context [?a ?= ?b] => destruct (Z.compare_spec a b) end;
    try destruct (Z.even _); nia.
Qed.

Lemma round_half_even_below (y : Q) :
  (y < -(1 # 2))%Q → X.round_half_even y <= -1.
Proof.
  intros Hy. unfold X.round_half_even. destruct y as [n dd].
  unfold Qlt in Hy. simpl in Hy. unfold Qfloor.
  pose proof (Z.div_mod n (Z.pos dd) ltac:(lia)) as Hdiv.
  pose proof (Z.mod_pos_bound n (Z.pos dd) ltac:(lia)) as Hmod.
  assert (Hf : n / Z.pos dd < 0) by (apply Z.div_lt_upper_bound; lia).
  unfold Qcompare, Qminus, Qplus, Qopp, inject_Z; simpl Qnum; simpl Qden.
  match goal with |- context [?a ?= ?b] => destruct (Z.compare_spec a b) end;
    try destruct (Z.even _); nia.
Qed.

(** The rounded value of a price has the sign of the nearest hundredth. *)
Lemma round2_above (q : Q) :
  (1 # 200 < q)%Q →
  ∃ a, X.round2 (Fin q) = Fin a ∧ (1 # 100 <= a)%Q.
Proof.
  intros Hq. eexists. split; [reflexivity|].
  assert (Hn : 1 <= X.round_half_even (q * 100)).
  { apply round_half_even_above. destruct q as [n dd].
    unfold Qlt in *. simpl in *. lia. }
  unfold X.round2. set (n := X.round_half_even (q * 100)) in *.
  unfold Qle, Qdiv, Qmult, Qinv, inject_Z. simpl. lia.
Qed.

Lemma round2_below (q : Q) :
  (q < -(1 # 200))%Q →
  ∃ a, X.round2 (Fin q) = Fin a ∧ (a <= -(1 # 100))%Q.
Proof.
  intros Hq. eexists. split; [reflexivity|].
  assert (Hn : X.round_half_even (q * 100) <= -1).
  { apply round_half_even_below. destruct q as [n dd].
    unfold Qlt in *. simpl in *. lia. }
  unfold X.round2. set (n := X.round_half_even (q * 100)) in *.
  unfold Qle, Qdiv, Qmult, Qinv, inject_Z. simpl. lia.
Qed.

Lemma classify_positive (a : Q) :
  (1 # 100 <= a)%Q → classify_by_sign (Fin a) = Increase (Fin a).
Proof.
  intros Ha. unfold classify_by_sign, X.ltb, X.zero.
  assert (H0 : Qle_bool 0 a = true).
  { apply Qle_bool_iff. eapply Qle_trans; [|exact Ha]. done. }
  assert (H1 : Qle_bool a 0 = false).
  { apply not_true_iff_false. rewrite Qle_bool_iff. intros Hle.
    assert (Hcontra : (1 # 100 <= 0)%Q) by (eapply Qle_trans; eassumption).
    by apply Hcontra. }
  by rewrite H0, H1.
Qed.

Lemma classify_negative (a : Q) :
  (a <= -(1 # 100))%Q → classify_by_sign (Fin a) = Decrease (Fin (Qabs a)).
Proof.
  intros Ha. unfold classify_by_sign, X.ltb, X.zero.
  assert (H0 : Qle_bool 0 a = false).
  { apply not_true_iff_false. rewrite Qle_bool_iff. intros Hle.
    assert (Hcontra : (0 <= -(1 # 100))%Q) by (eapply Qle_trans; eassumption).
    by apply Hcontra. }
  by rewrite H0.
Qed.

End Thresholds.

Section Nearest.

(** The rounded integer is within a half of the value. *)
Lemma round_half_even_error (y : Q) :
  (y - (1 # 2) <= inject_Z (X.round_half_even y))%Q ∧
  (inject_Z (X.round_half_even y) <= y + (1 # 2))%Q.
Proof.
  unfold X.round_half_even. destruct y as [n dd]. unfold Qfloor.
  pose proof (Z.div_mod n (Z.pos dd) ltac:(lia)) as Hdiv.
  pose proof (Z.mod_pos_bound n (Z.pos dd) ltac:(lia)) as Hmod.
  set (f := n / Z.pos dd) in *. set (r := n mod Z.pos dd) in *.
  unfold Qcompare, Qminus, Qplus, Qopp, inject_Z; simpl Qnum; simpl Qden.
  match goal with |- context [?a ?= ?b] => destruct (Z.compare_spec a b) end;
    try destruct (Z.even f); unfold Qle; simpl Qnum; simpl Qden; nia.
Qed.

(** [round(q, 2)] is a whole number of hundredths, within half a hundredth
    of [q]. *)
Lemma round2_error (q : Q) :
  ∃ n : Z, X.round2 (Fin q) = Fin (inject_Z n / 100) ∧
           (q - (1 # 200) <= inject_Z n / 100)%Q ∧
           (inject_Z n / 100 <= q + (1 # 200))%Q.
Proof.
  exists (X.round_half_even (q * 100)). split; [reflexivity|].
  destruct (round_half_even_error (q * 100)) as [Hlo Hhi].
  set (n := X.round_half_even (q * 100)) in *. destruct q as [m dd].
  unfold Qle, Qdiv, Qmult, Qinv, Qminus, Qplus, Qopp, inject_Z in *.
  simpl in *. lia.
Qed.

End Nearest.

(** C6.  Both narrations round the price to two decimals and word the sign
    of the rounded value: the sentence printed is the one of
    [classify_by_sign] at [X.round2] of the price, and [X.round2] of a
    finite price is a whole number of hundredths within half a hundredth of
    the price.  Hence a price above 0.005 is worded as an increase by its
    rounded value, a price below -0.005 as a reduction by the absolute
    value of its rounded value, and a price within half a hundredth of
    zero, such as -0.004, as the cost remaining equal, although its own
    sign is negative.  A price of -0.2 is worded as a reduction by 0.20,
    one of -0.006 as a reduction by 0.01, one of 0.6 as an increase in
    0.60. *)
Theorem rounding_precedes_sign_test :
  (∀ name sp sources,
     print_conclusions_constraints_sensibility_analysis name sp sources
     = nl ← decode_constraint_name name;
       Ok (if nl.1 <=? 2
           then [constraint_sentence (side_of sources nl.2) nl.2
                   (classify_by_sign (X.round2 sp))]
           else [])) ∧
  (∀ name rc,
     print_conclusions_variables_sensibility_analysis name rc
     = [variable_sentence (decode_variable_name name).1
          (decode_variable_name name).2
          (classify_by_sign (X.round2 rc))]) ∧
  (∀ q, (-(1 # 200) <= q)%Q → (q <= 1 # 200)%Q →
        classify_by_sign (X.round2 (Fin q)) = Remain_equal) ∧
  classify_by_sign (Fin (-0.004)) = Decrease (Fin 0.004) ∧
  classify_by_sign (X.round2 (Fin (-0.004))) = Remain_equal ∧
  print_conclusions_constraints_sensibility_analysis
    "c01_production_Arn" (Fin (-0.004)) ["Arn"; "Gou"]
  = Ok [Print [PStr "The total transportation cost would remain equal for each additional ton available in";
               PStr "Arn"]] ∧
  print_conclusions_constraints_sensibility_analysis
    "c02_demand_Lon" (Fin (-0.004)) ["Arn"; "Gou"]
  = Ok [Print [PStr "The total transportation cost would remain equal for each additional ton supply at";
               PStr "Lon"]] ∧
  print_conclusions_variables_sensibility_analysis
    "quantity_in_tons_Arn_Ams" (Fin (-0.004))
  = [Print [PStr "The total transportation cost would remain equal for each ton supply from";
            PStr "Arn"; PStr "to"; PStr "Ams"]] ∧
  (∀ q, ∃ n : Z, X.round2 (Fin q) = Fin (inject_Z n / 100) ∧
                 (q - (1 # 200) <= inject_Z n / 100)%Q ∧
                 (inject_Z n / 100 <= q + (1 # 200))%Q) ∧
  (∀ q, (1 # 200 < q)%Q →
        ∃ a, X.round2 (Fin q) = Fin a ∧ (1 # 100 <= a)%Q ∧
             classify_by_sign (X.round2 (Fin q)) = Increase (Fin a)) ∧
  (∀ q, (q < -(1 # 200))%Q →
        ∃ a, X.round2 (Fin q) = Fin a ∧ (a <= -(1 # 100))%Q ∧
             classify_by_sign (X.round2 (Fin q)) = Decrease (Fin (Qabs a))) ∧
  X.round2 (Fin (-0.2)) = Fin (-20 # 100) ∧
  X.round2 (Fin (-0.006)) = Fin (-1 # 100) ∧
  X.round2 (Fin 0.6) = Fin (60 # 100) ∧
  X.round2 (Fin 2.5) = Fin (250 # 100) ∧
  print_conclusions_constraints_sensibility_analysis
    "c01_production_Arn" (Fin (-0.2)) ["Arn"; "Gou"]
  = Ok [Print [PStr "The total transportation cost would be reduced by";
               PNum (Fin (20 # 100));
               PStr "euros for each additional ton available in";
               PStr "Arn"]] ∧
  print_conclusions_constraints_sensibility_analysis
    "c02_demand_Lon" (Fin 2.5) ["Arn"; "Gou"]
  = Ok [Print [PStr "The total transportation cost would be increased in";
               PNum (Fin (250 # 100));
               PStr "euros for each additional ton supply at";
               PStr "Lon"]] ∧
  print_conclusions_constraints_sensibility_analysis
    "c01_production_Arn" (Fin (-0.006)) ["Arn"; "Gou"]
  = Ok [Print [PStr "The total transportation cost would be reduced by";
               PNum (Fin (1 # 100));
               PStr "euros for each additional ton available in";
               PStr "Arn"]] ∧
  print_conclusions_variables_sensibility_analysis
    "quantity_in_tons_Arn_Ams" (Fin 0.6)
  = [Print [PStr "The total cost would be increased in";
            PNum (Fin (60 # 100));
            PStr "euros for each ton supply from";
            PStr "Arn"; PStr "to"; PStr "Ams"]] ∧
  print_conclusions_variables_sensibility_analysis
    "quantity_in_tons_Arn_Ams" (Fin (-0.006))
  = [Print [PStr "The total transportation cost would be reduced by";
            PNum (Fin (1 # 100));
            PStr "euros for each ton supply from";
            PStr "Arn"; PStr "to"; PStr "Ams"]].
Proof.
  split; [exact print_conclusions_constraints_eq|].
  split; [exact print_conclusions_variables_eq|].
  split; [exact small_price_remains_equal|].
  do 5 (split; [vm_compute; reflexivity|]).
  split; [exact round2_error|].
  split.
  { intros q Hq. destruct (round2_above q Hq) as (a & Ha & Hle).
    exists a. rewrite Ha. by rewrite classify_positive. }
  split.
  { intros q Hq. destruct (round2_below q Hq) as (a & Ha & Hle).
    exists a. rewrite Ha. by rewrite classify_negative. }
  repeat split; vm_compute; reflexivity.
Qed.

(** C8.  A narrated constraint, one whose decoded ordinal is at most 2, is
    worded by the side of its decoded location: ["available in"] the
    location when the location is in the list of sources, ["supply at"] the
    location when it is not. *)
Theorem narration_names_the_side (name : string) (sp : xnum)
    (sources : list string) (n : Z) (location : string) :
  decode_constraint_name name = Ok (n, location) → n <= 2 →
  (location ∈ sources →
   print_conclusions_constraints_sensibility_analysis name sp sources
   = Ok [constraint_sentence "available in" location
           (classify_by_sign (X.round2 sp))]) ∧
  (location ∉ sources →
   print_conclusions_constraints_sensibility_analysis name sp sources
   = Ok [constraint_sentence "supply at" location
           (classify_by_sign (X.round2 sp))]).
Proof.
  intros Hdecode Hn.
  rewrite print_conclusions_constraints_eq, Hdecode, bind_Ok. simpl fst. simpl snd.
  apply Z.leb_le in Hn. rewrite Hn. unfold side_of.
  split; intros Hloc.
  - apply contains_true in Hloc. by rewrite Hloc.
  - destruct (PyStr.contains sources location) eqn:Hc; [|done].
    by apply contains_true in Hc.
Qed.

Lemma narration_names_the_side_witness :
  print_conclusions_constraints_sensibility_analysis
    "c01_production_Arn" (Fin (-0.2)) ["Arn"; "Gou"]
  = Ok [Print [PStr "The total transportation cost would be reduced by";
               PNum (Fin 0.20);
               PStr "euros for each additional ton available in";
               PStr "Arn"]] ∧
  print_conclusions_constraints_sensibility_analysis
    "c02_demand_Lon" (Fin 2.5) ["Arn"; "Gou"]
  = Ok [Print [PStr "The total transportation cost would be increased in";
               PNum (Fin 2.50);
               PStr "euros for each additional ton supply at";
               PStr "Lon"]].
Proof.
  split.
  - apply (narration_names_the_side "c01_production_Arn" (Fin (-0.2))
             ["Arn"; "Gou"] 1 "Arn");
      [vm_compute; reflexivity | lia | apply (bool_decide_unpack _); vm_compute; exact I].
  - apply (narration_names_the_side "c02_demand_Lon" (Fin 2.5)
             ["Arn"; "Gou"] 2 "Lon");
      [vm_compute; reflexivity | lia | apply (bool_decide_unpack _); vm_compute; exact I].
Defined.

(** C10.  The name of a fixed-flow constraint starts with "c03": its
    decoded ordinal is 3, both wording branches ask for an ordinal of at
    most 2, and the narration prints nothing, whatever the shadow price and
    the list of sources. *)
Theorem fixed_flow_is_not_narrated :
  (∀ rest, PyStr.int (PyStr.slice ("c03" +:+ rest) (Some 2) (Some 3)) = Ok 3) ∧
  (∀ rest sp sources,
     print_conclusions_constraints_sensibility_analysis ("c03" +:+ rest) sp sources
     = Ok []) ∧
  (∀ s c sp sources,
     print_conclusions_constraints_sensibility_analysis (fixed_name s c) sp sources
     = Ok []).
Proof.
  assert (Hint : ∀ rest,
            PyStr.int (PyStr.slice ("c03" +:+ rest) (Some 2) (Some 3)) = Ok 3).
  { intros rest. change ("c03" +:+ rest) with ("c03" +:+ "" +:+ rest).
    by rewrite slice_2_3_append. }
  assert (Hsilent : ∀ rest sp sources,
            print_conclusions_constraints_sensibility_analysis
              ("c03" +:+ rest) sp sources = Ok []).
  { intros rest sp sources. rewrite print_conclusions_constraints_eq.
    unfold decode_constraint_name. by rewrite Hint. }
  split; [exact Hint|]. split; [exact Hsilent|].
  intros s c sp sources. apply (Hsilent ("_fixed_" +:+ s +:+ "_" +:+ c)).
Qed.

(** ** The report *)

Section ReportFacts.

Variable d : data.
Variable sol : solution.

Lemma list_getitem_Ok {A} (l : list A) (i : nat) (a : A) :
  list_getitem l i = Ok a ↔ l !! i = Some a.
Proof. unfold list_getitem. destruct (l !! i); split; congruence. Qed.

(** The rows of the constraint table, position by position. *)
Lemma constraint_rows_lookup (sv : solver) (rows : list constraint_row) :
  list_sensibility_analysis_constraints sv sol = Ok rows →
  length rows = length (constraints sv) ∧
  ∀ i row, rows !! i = Some row →
    ∃ k a, constraints sv !! i = Some k ∧ activities sol !! i = Some a ∧
           row = {| Constraint := c_name k; Slack := slack sol i a;
                    Shadow_price := dual_value sol i |}.
Proof.
  unfold list_sensibility_analysis_constraints. intros Hrows%mapM_Ok.
  split.
  - apply Forall2_length in Hrows. by rewrite length_imap in Hrows.
  - intros i row Hrow.
    destruct (Forall2_lookup_r _ _ _ _ _ Hrows Hrow) as ([j k] & Hk & Hmk).
    rewrite list_lookup_imap in Hk.
    destruct (constraints sv !! i) as [k'|] eqn:Hk'; [|done].
    injection Hk as <- <-. simpl in Hmk.
    apply bind_Ok_inv in Hmk as (a & Ha%list_getitem_Ok & [= <-]).
    by exists k', a.
Qed.

(** The table is computed when the solver returns an activity for each
    constraint. *)
Lemma constraint_rows_defined (sv : solver) :
  (length (constraints sv) ≤ length (activities sol))%nat →
  ∃ rows, list_sensibility_analysis_constraints sv sol = Ok rows.
Proof.
  intros Hlen. apply mapM_defined, Forall_forall.
  intros [i k] [j Hj]%list_elem_of_lookup.
  rewrite list_lookup_imap in Hj.
  destruct (constraints sv !! j) as [k'|] eqn:Hk'; [|done].
  injection Hj as <- <-. simpl.
  destruct (lookup_lt_is_Some_2 (activities sol) j) as [a Ha].
  { apply lookup_lt_Some in Hk'. lia. }
  apply list_getitem_Ok in Ha. rewrite Ha. eauto.
Qed.

Lemma slack_cases (i : nat) (a : xnum) :
  slack sol i a
  = match X.sub (ub sol i) a with PInf => Fin 0 | diff => diff end.
Proof. unfold slack. by destruct (X.sub (ub sol i) a). Qed.

Lemma elem_of_binding (rows : list constraint_row) (row : constraint_row) :
  row ∈ binding rows ↔ row ∈ rows ∧ X.eqb (Slack row) (Fin 0) = true.
Proof. unfold binding. rewrite list_elem_of_filter. tauto. Qed.

(** The table of quantities is computed for the variables of the model. *)
Lemma dict_quantity_defined :
  ∃ quantities,
    dict_quantity_sources_customers d (create_variables d CreateSolver).1 sol
    = Ok quantities.
Proof.
  unfold dict_quantity_sources_customers.
  destruct (mapM_defined
    (λ sc, v ← getitem (create_variables d CreateSolver).1 sc;
           Ok (sc, solution_value sol v)) (sources_customers d)) as [items ->].
  - apply Forall_forall. intros [s c] Hsc.
    apply elem_of_sources_customers, create_variables_lookup in Hsc as [v Hv].
    apply getitem_Ok in Hv. rewrite Hv. eauto.
  - rewrite bind_Ok. eauto.
Qed.

(** Every constraint of a constructed model has a name whose third
    character is a digit. *)
Lemma constructed_names_decode (vq : gmap route nat) (sv : solver) :
  create_the_model d = Ok (vq, sv) →
  Forall (λ k, ∃ nl, decode_constraint_name (c_name k) = Ok nl) (constraints sv).
Proof.
  intros (_ & caps & dems & fixed & terms & Hcaps & Hdems & Hfixed & _ & ->)
    %create_the_model_Ok.
  simpl. apply Forall_forall. intros k.
  rewrite !elem_of_app. unfold decode_constraint_name. intros [Hk|[Hk|Hk]].
  - apply list_elem_of_lookup in Hk as [i Hi].
    destruct (Forall2_lookup_r _ _ _ _ _ Hcaps Hi) as (s & _ & Hk).
    apply production_constraint_Ok in Hk as (b & -> & _).
    rewrite (proj1 (constraint_number_of_names s s)). eauto.
  - apply list_elem_of_lookup in Hk as [i Hi].
    destruct (Forall2_lookup_r _ _ _ _ _ Hdems Hi) as (c & _ & Hk).
    apply demand_constraint_Ok in Hk as (b & -> & _).
    rewrite (proj1 (proj2 (constraint_number_of_names c c))). eauto.
  - apply (elem_of_fixed d _ _ _ Hfixed) in Hk as (s & c & _ & _ & Hk).
    apply fixed_constraint_Some in Hk as (_ & q & v & _ & _ & _ & ->). simpl.
    rewrite (proj2 (proj2 (constraint_number_of_names s c))). eauto.
Qed.

(** So the narration of the binding rows raises nothing. *)
Lemma conclusions_defined (vq : gmap route nat) (sv : solver)
    (rows : list constraint_row) :
  create_the_model d = Ok (vq, sv) →
  list_sensibility_analysis_constraints sv sol = Ok rows →
  ∃ concl,
    mapM (λ row, print_conclusions_constraints_sensibility_analysis
                   (Constraint row) (Shadow_price row) (data_sSources d))
         (binding rows) = Ok concl.
Proof.
  intros Hmodel Hrows. apply mapM_defined, Forall_forall.
  intros row [Hrow _]%elem_of_binding.
  apply list_elem_of_lookup in Hrow as [i Hi].
  destruct (proj2 (constraint_rows_lookup sv rows Hrows) i row Hi)
    as (k & a & Hk & _ & ->). simpl.
  pose proof (constructed_names_decode vq sv Hmodel) as Hnames.
  eapply Forall_forall in Hnames as [nl Hnl]; [|by eapply list_elem_of_lookup_2].
  rewrite print_conclusions_constraints_eq, Hnl. eauto.
Qed.

End ReportFacts.

Section ReportShape.

Variable d : data.
Variable vq : gmap route nat.
Variable sv : solver.
Variable sol : solution.

(** The successful report, part by part. *)
Lemma from_tuples_Ok (quantities : gmap route xnum) :
  from_tuples quantities = Ok () ↔ quantities ≠ ∅.
Proof. unfold from_tuples. by case_decide. Qed.

Lemma column_Ok {A} (records : list A) : column records = Ok () ↔ records ≠ [].
Proof. by destruct records. Qed.

Lemma print_results_Ok (st : status) (out : list output) :
  print_results d vq sv sol st = Ok out ↔
  ∃ quantities crows cconcl,
    dict_quantity_sources_customers d vq sol = Ok quantities ∧
    quantities ≠ ∅ ∧
    list_sensibility_analysis_constraints sv sol = Ok crows ∧
    crows ≠ [] ∧
    mapM (constraint_conclusion d) (binding crows) = Ok cconcl ∧
    list_sensibility_analysis_variables sv sol ≠ [] ∧
    out = report_head (if decide (st = OPTIMAL) then "Optimal"
                       else "Feasible, but not optimal") sol quantities crows
          ++ concat cconcl
          ++ report_middle (list_sensibility_analysis_variables sv sol)
          ++ variable_conclusions sv sol
          ++ [Print [PStr newline]].
Proof.
  unfold print_results. split.
  - intros (quantities & Hq & ([] & Hne%from_tuples_Ok &
      (crows & Hrows & ([] & Hcne%column_Ok &
      (cconcl & Hconcl & ([] & Hvne%column_Ok & [= <-])
      %bind_Ok_inv)%bind_Ok_inv)%bind_Ok_inv)%bind_Ok_inv)%bind_Ok_inv)
      %bind_Ok_inv.
    by exists quantities, crows, cconcl.
  - intros (quantities & crows & cconcl & Hq & Hne%from_tuples_Ok & Hrows &
      Hcne%column_Ok & Hconcl & Hvne%column_Ok & ->).
    rewrite Hq, bind_Ok, Hne, bind_Ok, Hrows, bind_Ok, Hcne, bind_Ok.
    unfold constraint_conclusion in Hconcl.
    by rewrite Hconcl, bind_Ok, Hvne, bind_Ok.
Qed.

End ReportShape.

(** C4.  Every constraint of the model has one row; the slack of the row is
    the constraint's upper bound minus its activity, but 0 when that
    difference is plus infinity, as for a constraint without upper bound
    and a finite activity; and the rows narrated in the report are exactly
    the rows whose slack equals zero, in the order of the table. *)
Theorem slack_and_binding_rows (sv : solver) (sol : solution)
    (rows : list constraint_row) :
  list_sensibility_analysis_constraints sv sol = Ok rows →
  length rows = length (constraints sv) ∧
  (∀ i row, rows !! i = Some row →
     ∃ k a, constraints sv !! i = Some k ∧ activities sol !! i = Some a ∧
            Constraint row = c_name k ∧
            Shadow_price row = dual_value sol i ∧
            Slack row = match X.sub (ub sol i) a with
                        | PInf => Fin 0
                        | difference => difference
                        end ∧
            (ub sol i = PInf → (∃ q, a = Fin q) →
             Slack row = Fin 0 ∧ row ∈ binding rows)) ∧
  binding rows = filter (λ row, X.eqb (Slack row) (Fin 0) = true) rows ∧
  (∀ row, row ∈ binding rows ↔ row ∈ rows ∧ X.eqb (Slack row) (Fin 0) = true) ∧
  (∀ d vq st out,
     print_results d vq sv sol st = Ok out →
     ∃ quantities cconcl,
       mapM (constraint_conclusion d) (binding rows) = Ok cconcl ∧
       out = report_head (if decide (st = OPTIMAL) then "Optimal"
                          else "Feasible, but not optimal") sol quantities rows
             ++ concat cconcl
             ++ report_middle (list_sensibility_analysis_variables sv sol)
             ++ variable_conclusions sv sol
             ++ [Print [PStr newline]]).
Proof.
  intros Hrows.
  destruct (constraint_rows_lookup sol sv rows Hrows) as [Hlen Hlookup].
  split; [exact Hlen|]. split; [|split; [done|split]].
  - intros i row Hrow.
    destruct (Hlookup i row Hrow) as (k & a & Hk & Ha & ->).
    exists k, a. simpl.
    do 4 (split; [done|]). split; [apply slack_cases|].
    intros Hub [q ->]. split; [by rewrite slack_cases, Hub|].
    apply elem_of_binding. split; [eapply list_elem_of_lookup_2; exact Hrow|].
    simpl. by rewrite slack_cases, Hub.
  - apply elem_of_binding.
  - intros d vq st out
      (quantities & crows & cconcl & _ & _ & Hcrows & _ & Hconcl & _ & ->)
      %print_results_Ok.
    rewrite Hrows in Hcrows. injection Hcrows as <-.
    by exists quantities, cconcl.
Qed.

Lemma slack_and_binding_rows_witness :
  list_sensibility_analysis_constraints solver_example sol_example
  = Ok [ {| Constraint := "c01_production_Arn"; Slack := Fin 349;
            Shadow_price := Fin 0 |};
         {| Constraint := "c01_production_Gou"; Slack := Fin 26;
            Shadow_price := Fin (-0.004) |};
         {| Constraint := "c02_demand_Ams"; Slack := Fin 0;
            Shadow_price := Fin 2.5 |};
         {| Constraint := "c02_demand_Ber"; Slack := Fin 0;
            Shadow_price := Fin 2.7 |};
         {| Constraint := "c02_demand_Lon"; Slack := Fin 0;
            Shadow_price := Fin 2.5 |};
         {| Constraint := "c03_fixed_Arn_Ams"; Slack := Fin 0;
            Shadow_price := Fin 0.6 |} ] ∧
  ∃ rows : list constraint_row,
    length rows = length (constraints solver_example).
Proof.
  assert (H : list_sensibility_analysis_constraints solver_example sol_example
    = Ok [ {| Constraint := "c01_production_Arn"; Slack := Fin 349;
              Shadow_price := Fin 0 |};
           {| Constraint := "c01_production_Gou"; Slack := Fin 26;
              Shadow_price := Fin (-0.004) |};
           {| Constraint := "c02_demand_Ams"; Slack := Fin 0;
              Shadow_price := Fin 2.5 |};
           {| Constraint := "c02_demand_Ber"; Slack := Fin 0;
              Shadow_price := Fin 2.7 |};
           {| Constraint := "c02_demand_Lon"; Slack := Fin 0;
              Shadow_price := Fin 2.5 |};
           {| Constraint := "c03_fixed_Arn_Ams"; Slack := Fin 0;
              Shadow_price := Fin 0.6 |} ])
    by (vm_compute; reflexivity).
  split; [exact H|].
  eexists. exact (proj1 (slack_and_binding_rows _ _ _ H)).
Defined.

(** C5.  On a status that is neither optimal nor feasible the program
    prints the failure message and nothing else.  On an optimal or feasible
    status the interpretation does not always proceed: for [data_idle],
    whose only customer demands nothing, the optimal answer moves nothing,
    the dict of quantities is empty, and the frame of quantities cannot be
    built: the program raises [TypeError], under either status. *)
Theorem idle_optimum_raises_TypeError :
  create_the_model data_idle
  = Ok ({[ ("Arn", "Ams") := 0%nat ]},
        {| variables := [quantity_variable ("Arn", "Ams")];
           constraints :=
             [ {| c_expr := [0%nat]; c_sense := LE; c_bound := 10;
                  c_name := "c01_production_Arn" |};
               {| c_expr := [0%nat]; c_sense := GE; c_bound := 0;
                  c_name := "c02_demand_Ams" |} ];
           objective := [ (1%Q, 0%nat) ] |}) ∧
  dict_quantity_sources_customers data_idle {[ ("Arn", "Ams") := 0%nat ]} sol_idle
  = Ok ∅ ∧
  solve_problem_using_ortools_linear_solver (λ _, (OPTIMAL, sol_idle)) data_idle
  = Raise TypeError ∧
  solve_problem_using_ortools_linear_solver (λ _, (FEASIBLE, sol_idle)) data_idle
  = Raise TypeError ∧
  solve_problem_using_ortools_linear_solver (λ _, (INFEASIBLE, sol_idle)) data_idle
  = Ok [Print [PStr "The solver could not solve the problem."]].
Proof. repeat split; vm_compute; reflexivity. Qed.

(** * Further properties *)

(** ** The tables of the input *)

Section Tables.

Context `{Countable K} {V : Type}.

Lemma foldl_insert_other (items : list (K * V)) (m : gmap K V) (k : K) :
  k ∉ items.*1 →
  foldl (λ d kv, <[kv.1 := kv.2]> d) m items !! k = m !! k.
Proof.
  revert m. induction items as [|[k' v'] items IH]; intros m Hk; [done|].
  simpl in *. apply not_elem_of_cons in Hk as [Hne Hk].
  rewrite IH by done. by rewrite lookup_insert_ne.
Qed.

(** The last item of a key is the one the dict keeps. *)
Lemma dict_of_items_last (l1 l2 : list (K * V)) (k : K) (v : V) :
  k ∉ l2.*1 → dict_of_items (l1 ++ (k, v) :: l2) !! k = Some v.
Proof.
  intros Hk. unfold dict_of_items. rewrite foldl_app. simpl.
  rewrite foldl_insert_other by done. apply lookup_insert_eq.
Qed.

Lemma dict_of_items_None (items : list (K * V)) (k : K) :
  dict_of_items items !! k = None ↔ k ∉ items.*1.
Proof.
  rewrite <- not_elem_of_dom, dict_of_items_dom. set_solver.
Qed.

(** Every entry of the dict is an item of the list. *)
Lemma dict_of_items_Some (items : list (K * V)) (k : K) (v : V) :
  dict_of_items items !! k = Some v → (k, v) ∈ items.
Proof.
  unfold dict_of_items.
  assert (Hgen : ∀ m : gmap K V,
    foldl (λ d kv, <[kv.1 := kv.2]> d) m items !! k = Some v →
    m !! k = Some v ∨ (k, v) ∈ items).
  { induction items as [|[k' v'] items IH]; intros m Hm; [by left|].
    simpl in Hm. apply IH in Hm as [Hm|Hm].
    - simpl in Hm. apply lookup_insert_Some in Hm as [[-> ->]|[_ Hm]].
      + right. left.
      + by left.
    - right. by right. }
  intros [Hm|Hm]%Hgen; [by rewrite lookup_empty in Hm | done].
Qed.

End Tables.

(** X1.  In both parameter tables a later item overwrites an earlier item
    of the same route: the cost and the fixed quantity of a route are those
    of its last item, and a route has no entry exactly when no item names
    it. *)
Theorem tables_keep_the_last_item (d : data) (r : route) (v : Q)
    (l1 l2 : list (route * Q)) :
  r ∉ l2.*1 →
  (data_pTransportationCosts d = l1 ++ (r, v) :: l2 →
   pTransportationCosts d !! r = Some v) ∧
  (data_pFixedTransportation d = l1 ++ (r, v) :: l2 →
   pFixedTransportation d !! r = Some v) ∧
  (pTransportationCosts d !! r = None ↔ r ∉ (data_pTransportationCosts d).*1) ∧
  (pFixedTransportation d !! r = None ↔ r ∉ (data_pFixedTransportation d).*1).
Proof.
  intros Hr. unfold pTransportationCosts, pFixedTransportation.
  split; [|split; [|split]].
  - intros ->. by apply dict_of_items_last.
  - intros ->. by apply dict_of_items_last.
  - apply dict_of_items_None.
  - apply dict_of_items_None.
Qed.

Lemma tables_keep_the_last_item_witness :
  pFixedTransportation
    {| data_sSources := []; data_sCustomers := [];
       data_pSourceProduction := ∅; data_pCustomerDemand := ∅;
       data_pTransportationCosts := [];
       data_pFixedTransportation :=
         [ (("Arn", "Ams"), 5%Q); (("Arn", "Ams"), 0%Q) ] |}
    !! ("Arn", "Ams") = Some 0%Q.
Proof.
  refine (proj1 (proj2 (tables_keep_the_last_item _ ("Arn", "Ams") 0%Q
                          [(("Arn", "Ams"), 5%Q)] [] _)) _);
    [apply not_elem_of_nil | reflexivity].
Defined.

(** ** The variables of the solver *)

Section Handles.

Variable d : data.

Lemma NoDup_sources_customers :
  NoDup (data_sSources d) → NoDup (data_sCustomers d) →
  NoDup (sources_customers d).
Proof.
  intros Hs Hc. unfold sources_customers.
  apply NoDup_bind; [| |done].
  - intros s1 s2 [s c] _ _ (c1 & Hin1 & _)%list_elem_of_bind
      (c2 & Hin2 & _)%list_elem_of_bind.
    destruct (available d s1 c1); [|by apply not_elem_of_nil in Hin1].
    destruct (available d s2 c2); [|by apply not_elem_of_nil in Hin2].
    apply list_elem_of_singleton in Hin1, Hin2. congruence.
  - intros s _. apply NoDup_bind; [| |done].
    + intros c1 c2 [s' c] _ _ Hin1 Hin2.
      destruct (available d s c1); [|by apply not_elem_of_nil in Hin1].
      destruct (available d s c2); [|by apply not_elem_of_nil in Hin2].
      apply list_elem_of_singleton in Hin1, Hin2. congruence.
    + intros c _. destruct (available d s c); [apply NoDup_singleton | constructor].
Qed.

Lemma create_variables_dom :
  dom (create_variables d CreateSolver).1 = list_to_set (sources_customers d).
Proof.
  unfold create_variables. rewrite foldl_new_variable_dom. simpl. set_solver.
Qed.

End Handles.

(** X2.  The solver holds one variable per visit of the comprehension; every
    handle stored in the dict of variables is the position of a variable of
    the solver, and no two routes share a handle.  When neither list of
    codes repeats a code, the solver holds exactly one variable per
    route. *)
Theorem one_variable_per_visit (d : data) (vq : gmap route nat) (sv : solver) :
  create_the_model d = Ok (vq, sv) →
  length (variables sv) = length (sources_customers d) ∧
  (∀ sc v, vq !! sc = Some v → (v < length (variables sv))%nat) ∧
  (∀ sc1 sc2 v, vq !! sc1 = Some v → vq !! sc2 = Some v → sc1 = sc2) ∧
  (NoDup (data_sSources d) → NoDup (data_sCustomers d) →
   size vq = length (variables sv)).
Proof.
  intros (-> & caps & dems & fixed & terms & _ & _ & _ & _ & ->)
    %create_the_model_Ok.
  simpl. rewrite length_fmap.
  destruct (create_variables_handles_ok d) as [Hdecl Hinj].
  split; [done|]. split; [|split; [exact Hinj|]].
  - intros sc v Hv%Hdecl. apply lookup_lt_Some in Hv.
    rewrite create_variables_solver in Hv. simpl in Hv.
    by rewrite length_fmap in Hv.
  - intros Hs Hc. rewrite <- size_dom, create_variables_dom.
    apply size_list_to_set. by apply NoDup_sources_customers.
Qed.

Lemma one_variable_per_visit_witness :
  create_the_model data_example = Ok (vq_example, solver_example) ∧
  size vq_example = length (variables solver_example).
Proof.
  assert (H : create_the_model data_example = Ok (vq_example, solver_example))
    by (vm_compute; reflexivity).
  split; [exact H|].
  apply (one_variable_per_visit data_example vq_example solver_example H);
    apply (bool_decide_unpack _); vm_compute; exact I.
Defined.

Section DecodeVariables.

Variable d : data.
Hypothesis Hcodes : three_character_codes d.

Lemma visited_pair_decodes (sc : route) :
  sc ∈ sources_customers d →
  decode_variable_name (v_name (quantity_variable sc)) = sc.
Proof.
  destruct sc as [s c]. intros (Hs & Hc & _)%elem_of_sources_customers.
  destruct Hcodes as [Hls Hlc].
  eapply Forall_forall in Hls; [|exact Hs].
  eapply Forall_forall in Hlc; [|exact Hc].
  by apply decode_variable_name_ok.
Qed.

End DecodeVariables.

(** X3.  When every location code has three characters, the name of every
    variable of the solver decodes to a route of the model; and when,
    moreover, neither list repeats a code, it decodes to the route whose
    handle is that very variable. *)
Theorem solver_variables_decode_to_routes (d : data) (vq : gmap route nat)
    (sv : solver) :
  create_the_model d = Ok (vq, sv) → three_character_codes d →
  (∀ i x, variables sv !! i = Some x →
          decode_variable_name (v_name x) ∈ dom vq) ∧
  (NoDup (data_sSources d) → NoDup (data_sCustomers d) →
   ∀ i x, variables sv !! i = Some x →
          vq !! decode_variable_name (v_name x) = Some i).
Proof.
  intros (-> & caps & dems & fixed & terms & _ & _ & _ & _ & ->)
    %create_the_model_Ok Hcodes.
  simpl. split.
  - intros i x (sc & -> & Hsc%list_elem_of_lookup_2)%list_lookup_fmap_Some.
    rewrite (visited_pair_decodes d Hcodes sc Hsc).
    rewrite create_variables_dom. by apply elem_of_list_to_set.
  - intros Hs Hc i x (sc & -> & Hi)%list_lookup_fmap_Some.
    pose proof (list_elem_of_lookup_2 _ _ _ Hi) as Hsc.
    rewrite (visited_pair_decodes d Hcodes sc Hsc).
    assert (Hin : sc ∈ dom (create_variables d CreateSolver).1).
    { rewrite create_variables_dom. by apply elem_of_list_to_set. }
    apply elem_of_dom in Hin as [v Hv]. rewrite Hv. f_equal.
    pose proof (proj1 (create_variables_handles_ok d) sc v Hv) as Hdecl.
    rewrite create_variables_solver in Hdecl. simpl in Hdecl.
    apply list_lookup_fmap_Some in Hdecl as (sc' & Heq & Hv').
    assert (sc' = sc) as ->.
    { rewrite <- (visited_pair_decodes d Hcodes sc'),
        <- (visited_pair_decodes d Hcodes sc);
        [by rewrite Heq | done | by eapply list_elem_of_lookup_2]. }
    eapply NoDup_lookup; [by apply NoDup_sources_customers| |]; eassumption.
Qed.

Lemma solver_variables_decode_to_routes_witness :
  create_the_model data_example = Ok (vq_example, solver_example) ∧
  vq_example !! decode_variable_name "quantity_in_tons_Gou_Ams" = Some 2%nat.
Proof.
  assert (H : create_the_model data_example = Ok (vq_example, solver_example))
    by (vm_compute; reflexivity).
  split; [exact H|].
  refine (proj2 (solver_variables_decode_to_routes data_example vq_example
                   solver_example H _) _ _ 2%nat
            (quantity_variable ("Gou", "Ams")) _);
    try (apply (bool_decide_unpack _); vm_compute; exact I).
  reflexivity.
Defined.

(** ** What the constraints say *)

Section Bounds.

Variable d : data.

Lemma handles_of_filter {A} (P : A → Prop) `{∀ a, Decision (P a)}
    (f : A → option nat) (l : list A) (expr : list nat) :
  (∀ a, a ∈ l → ¬ P a → f a = None) →
  Forall2 (λ a v, f a = Some v) (filter P l) expr →
  expr = omap f l.
Proof.
  revert expr. induction l as [|a l IH]; intros expr Hnone Hexpr.
  - by inversion Hexpr.
  - destruct (decide (P a)) as [Ha|Ha].
    + rewrite filter_cons_True in Hexpr by done.
      inversion Hexpr as [|? v ? expr' Hv Hexpr']; subst. simpl. rewrite Hv.
      f_equal. apply IH; [|done]. intros a' Ha'. apply Hnone. by right.
    + rewrite filter_cons_False in Hexpr by done. simpl.
      rewrite (Hnone a) by (done || left). apply IH; [|done].
      intros a' Ha'. apply Hnone. by right.
Qed.

Lemma not_available_lookup (s c : string) :
  ¬ available d s c = true → (create_variables d CreateSolver).1 !! (s, c) = None.
Proof.
  intros Hav. apply eq_None_not_Some.
  intros (_ & _ & Hin)%create_variables_lookup.
  by apply Hav, available_true.
Qed.

(** The left-hand side of the capacity constraint of a source is its
    outgoing flow, that of the demand constraint of a customer its incoming
    flow. *)
Lemma production_constraint_flow (s : string) (k : constraint) (x : nat → Q) :
  production_constraint d (create_variables d CreateSolver).1 s = Ok k →
  lhs_value x (c_expr k) = flow_out d (create_variables d CreateSolver).1 x s.
Proof.
  intros (b & _ & _ & _ & Hexpr)%production_constraint_Ok. unfold flow_out.
  f_equal. apply (handles_of_filter _ _ _ _ (λ c _, not_available_lookup s c) Hexpr).
Qed.

Lemma demand_constraint_flow (c : string) (k : constraint) (x : nat → Q) :
  demand_constraint d (create_variables d CreateSolver).1 c = Ok k →
  lhs_value x (c_expr k) = flow_in d (create_variables d CreateSolver).1 x c.
Proof.
  intros (b & _ & _ & _ & Hexpr)%demand_constraint_Ok. unfold flow_in.
  f_equal.
  apply (handles_of_filter _ _ _ _ (λ s _, not_available_lookup s c) Hexpr).
Qed.

(** An assignment that satisfies the constraints respects every production
    and every demand. *)
Lemma satisfied_bounds (vq : gmap route nat) (sv : solver) (x : nat → Q) :
  create_the_model d = Ok (vq, sv) → satisfies_all x sv = true →
  (∀ s q, s ∈ data_sSources d → data_pSourceProduction d !! s = Some q →
          (flow_out d vq x s <= q)%Q) ∧
  (∀ c q, c ∈ data_sCustomers d → data_pCustomerDemand d !! c = Some q →
          (q <= flow_in d vq x c)%Q).
Proof.
  intros Hmodel Hall.
  destruct (create_the_model_Ok d vq sv Hmodel)
    as (-> & caps & dems & fixed & terms & Hcaps & Hdems & _ & _ & Hsv).
  split.
  - intros s q [i Hi]%list_elem_of_lookup Hq.
    destruct (Forall2_lookup_l _ _ _ _ _ Hcaps Hi) as (k & Hk & Hprod).
    assert (Hin : k ∈ constraints sv).
    { rewrite Hsv. simpl. apply elem_of_app. left.
      by eapply list_elem_of_lookup_2. }
    pose proof (satisfies_all_elem x sv k Hall Hin) as Hsat.
    rewrite <- (production_constraint_flow s k x Hprod).
    apply production_constraint_Ok in Hprod
      as (b & _ & [(_ & Hsense & Hbound)|(Hexpr & Hsense & Hbound)] & Hb & _);
      rewrite Hq in Hb; injection Hb as <-;
      unfold satisfies in Hsat; rewrite Hsense, Hbound in Hsat.
    + by apply Qle_bool_iff in Hsat.
    + rewrite Hexpr in *. unfold lhs_value in *. simpl in *.
      destruct (Qle_bool 0 q) eqn:Hle; [by apply Qle_bool_iff in Hle | done].
  - intros c q [i Hi]%list_elem_of_lookup Hq.
    destruct (Forall2_lookup_l _ _ _ _ _ Hdems Hi) as (k & Hk & Hdem).
    assert (Hin : k ∈ constraints sv).
    { rewrite Hsv. simpl. rewrite !elem_of_app. right. left.
      by eapply list_elem_of_lookup_2. }
    pose proof (satisfies_all_elem x sv k Hall Hin) as Hsat.
    rewrite <- (demand_constraint_flow c k x Hdem).
    apply demand_constraint_Ok in Hdem
      as (b & _ & [(_ & Hsense & Hbound)|(Hexpr & Hsense & Hbound)] & Hb & _);
      rewrite Hq in Hb; injection Hb as <-;
      unfold satisfies in Hsat; rewrite Hsense, Hbound in Hsat.
    + by apply Qle_bool_iff in Hsat.
    + rewrite Hexpr in *. unfold lhs_value in *. simpl in *.
      destruct (Qle_bool q 0) eqn:Hle; [by apply Qle_bool_iff in Hle | done].
Qed.

End Bounds.

(** X4.  Every assignment of the variables that satisfies the constraints
    of a constructed model sends out of each listed source at most its
    production and into each listed customer at least its demand. *)
Theorem satisfying_flows_respect_production_and_demand (d : data)
    (vq : gmap route nat) (sv : solver) (x : nat → Q) :
  create_the_model d = Ok (vq, sv) → satisfies_all x sv = true →
  (∀ s q, s ∈ data_sSources d → data_pSourceProduction d !! s = Some q →
          (flow_out d vq x s <= q)%Q) ∧
  (∀ c q, c ∈ data_sCustomers d → data_pCustomerDemand d !! c = Some q →
          (q <= flow_in d vq x c)%Q).
Proof. apply satisfied_bounds. Qed.

Lemma satisfying_flows_respect_production_and_demand_witness :
  create_the_model data_example = Ok (vq_example, solver_example) ∧
  satisfies_all flow_example solver_example = true ∧
  (flow_out data_example vq_example flow_example "Gou" <= 650)%Q ∧
  (500 <= flow_in data_example vq_example flow_example "Ams")%Q.
Proof.
  assert (H : create_the_model data_example = Ok (vq_example, solver_example))
    by (vm_compute; reflexivity).
  assert (Hx : satisfies_all flow_example solver_example = true)
    by (vm_compute; reflexivity).
  split; [exact H|]. split; [exact Hx|].
  destruct (satisfying_flows_respect_production_and_demand
              data_example vq_example solver_example flow_example H Hx)
    as [Hout Hin].
  split.
  - apply Hout; [apply (bool_decide_unpack _); vm_compute; exact I
                | vm_compute; reflexivity].
  - apply Hin; [apply (bool_decide_unpack _); vm_compute; exact I
               | vm_compute; reflexivity].
Defined.

(** X5.  A listed customer that no listed source serves, with a demand
    above zero, makes the model unsatisfiable: its demand constraint has an
    empty left-hand side, and no assignment of the variables satisfies the
    constraints. *)
Theorem unserved_customer_is_unsatisfiable (d : data) (vq : gmap route nat)
    (sv : solver) (c : string) (q : Q) :
  create_the_model d = Ok (vq, sv) →
  c ∈ data_sCustomers d →
  (∀ s, s ∈ data_sSources d → (s, c) ∉ sSources_Customers d) →
  data_pCustomerDemand d !! c = Some q → (0 < q)%Q →
  ∀ x, satisfies_all x sv = false.
Proof.
  intros Hmodel Hc Hnone Hq Hpos x.
  destruct (satisfies_all x sv) eqn:Hall; [|done]. exfalso.
  destruct (satisfied_bounds d vq sv x Hmodel Hall) as [_ Hin].
  specialize (Hin c q Hc Hq).
  destruct (create_the_model_Ok d vq sv Hmodel) as [-> _].
  unfold flow_in in Hin.
  replace (omap (λ s, (create_variables d CreateSolver).1 !! (s, c))
             (data_sSources d)) with (@nil nat) in Hin.
  - unfold lhs_value in Hin. simpl in Hin. by apply Qle_not_lt in Hin.
  - symmetry. assert (Hgen : ∀ l, (∀ s, s ∈ l → s ∈ data_sSources d) →
      omap (λ s, (create_variables d CreateSolver).1 !! (s, c)) l = []).
    { induction l as [|s l IH]; intros Hl; [done|]. simpl.
      rewrite not_available_lookup.
      - apply IH. intros s' Hs'. apply Hl. by right.
      - rewrite available_true. apply Hnone, Hl. left. }
    by apply Hgen.
Qed.

Lemma unserved_customer_is_unsatisfiable_witness :
  satisfies_all (λ _, 7%Q)
    (Add (bool_row false "c02_demand_Ams") CreateSolver) = false.
Proof.
  refine (unserved_customer_is_unsatisfiable
           {| data_sSources := []; data_sCustomers := ["Ams"];
              data_pSourceProduction := ∅;
              data_pCustomerDemand := {[ "Ams" := 5%Q ]};
              data_pTransportationCosts := [];
              data_pFixedTransportation := [] |}
           ∅ _ "Ams" 5%Q _ _ _ _ _ (λ _, 7%Q));
    [vm_compute; reflexivity | apply (bool_decide_unpack _); vm_compute; exact I
    | intros s Hs; by apply not_elem_of_nil in Hs
    | vm_compute; reflexivity | reflexivity].
Defined.

(** ** The fixed-flow constraints and the size of the model *)

Section FixedList.

Variable d : data.
Variable vq : gmap route nat.

Let fixed_for (sc : route) (k : constraint) : Prop :=
  ∃ q v, pFixedTransportation d !! sc = Some q ∧ ¬ (q == 0)%Q ∧
         vq !! sc = Some v ∧
         k = {| c_expr := [v]; c_sense := EQ; c_bound := q;
                c_name := fixed_name sc.1 sc.2 |}.

Let is_fixed (sc : route) : Prop :=
  from_option truthy false (pFixedTransportation d !! sc) = true.

Lemma fixed_of_customers (s : string) (cs : list string)
    (oks : list (option constraint)) :
  Forall2 (λ c ok, fixed_constraint d vq s c = Ok ok) cs oks →
  Forall2 fixed_for
    (filter is_fixed (cs ≫= λ c, if available d s c then [(s, c)] else []))
    (omap id oks).
Proof.
  induction 1 as [|c ok cs oks Hc _ IH]; [constructor|].
  rewrite bind_cons, filter_app. unfold fixed_constraint, getitem in Hc.
  destruct (available d s c).
  - destruct (pFixedTransportation d !! (s, c)) as [q|] eqn:Hq; [|done].
    rewrite bind_Ok in Hc. destruct (truthy q) eqn:Htruthy.
    + destruct (vq !! (s, c)) as [v|] eqn:Hv; [|done].
      rewrite !bind_Ok in Hc. injection Hc as <-.
      rewrite filter_cons_True by (unfold is_fixed; by rewrite Hq).
      rewrite filter_nil. simpl. constructor; [|exact IH].
      exists q, v. by rewrite truthy_true in Htruthy.
    + injection Hc as <-.
      rewrite filter_cons_False by (unfold is_fixed; rewrite Hq; simpl; congruence).
      rewrite filter_nil. exact IH.
  - injection Hc as <-. rewrite filter_nil. exact IH.
Qed.

Lemma fixed_of_sources (ss : list string) (fixed : list (list constraint)) :
  Forall2 (λ s ks, fixed_of_source d vq s = Ok ks) ss fixed →
  Forall2 fixed_for
    (filter is_fixed
       (ss ≫= λ s, data_sCustomers d ≫= λ c,
                     if available d s c then [(s, c)] else []))
    (concat fixed).
Proof.
  induction 1 as [|s ks ss fixed Hs _ IH]; [constructor|].
  rewrite bind_cons, filter_app. simpl concat. apply Forall2_app; [|exact IH].
  unfold fixed_of_source in Hs.
  apply bind_Ok_inv in Hs as (oks & Hoks%mapM_Ok & [= <-]).
  by apply fixed_of_customers.
Qed.

End FixedList.

(** X6.  The constraints of a constructed model are one capacity constraint
    per element of the list of sources, then one demand constraint per
    element of the list of customers, then exactly one equality constraint
    per visited pair whose fixed quantity is present and not zero, in the
    order of the visit; hence their number is the sum of the three
    counts. *)
Theorem constraints_are_counted (d : data) (vq : gmap route nat) (sv : solver) :
  create_the_model d = Ok (vq, sv) →
  ∃ caps dems fixed,
    constraints sv = caps ++ dems ++ fixed ∧
    length caps = length (data_sSources d) ∧
    length dems = length (data_sCustomers d) ∧
    Forall2 (λ sc k,
        ∃ q v, pFixedTransportation d !! sc = Some q ∧ ¬ (q == 0)%Q ∧
               vq !! sc = Some v ∧
               k = {| c_expr := [v]; c_sense := EQ; c_bound := q;
                      c_name := fixed_name sc.1 sc.2 |})
      (fixed_routes d) fixed ∧
    length (constraints sv)
    = (length (data_sSources d) + length (data_sCustomers d)
       + length (fixed_routes d))%nat.
Proof.
  intros (_ & caps & dems & fixed & terms & Hcaps & Hdems & Hfixed & _ & ->)
    %create_the_model_Ok.
  exists caps, dems, (concat fixed). simpl.
  apply Forall2_length in Hcaps, Hdems.
  pose proof (fixed_of_sources d vq _ _ Hfixed) as Hlist.
  pose proof (Forall2_length _ _ _ Hlist) as Hlen.
  split; [done|]. split; [done|]. split; [done|]. split; [exact Hlist|].
  rewrite !length_app. unfold fixed_routes, sources_customers. lia.
Qed.

Lemma constraints_are_counted_witness :
  create_the_model data_example = Ok (vq_example, solver_example) ∧
  length (constraints solver_example)
  = (length (data_sSources data_example)
     + length (data_sCustomers data_example)
     + length (fixed_routes data_example))%nat.
Proof.
  assert (H : create_the_model data_example = Ok (vq_example, solver_example))
    by (vm_compute; reflexivity).
  split; [exact H|].
  destruct (constraints_are_counted _ _ _ H)
    as (caps & dems & fixed & _ & _ & _ & _ & Hlen).
  exact Hlen.
Defined.

(** ** The objective and the handles *)

(** X7.  The objective of a constructed model has one term per visit of a
    route, in the order of the visit: the route's variable, with the cost
    that the cost table keeps for the route, which is the cost of one of
    its items. *)
Theorem objective_has_one_term_per_visit (d : data) (vq : gmap route nat)
    (sv : solver) :
  create_the_model d = Ok (vq, sv) →
  Forall2 (λ sc t,
      pTransportationCosts d !! sc = Some t.1 ∧ vq !! sc = Some t.2 ∧
      (sc, t.1) ∈ data_pTransportationCosts d)
    (sources_customers d) (objective sv).
Proof.
  intros (_ & caps & dems & fixed & terms & _ & _ & _ & Hterms & ->)
    %create_the_model_Ok.
  simpl. unfold objective_terms in Hterms. apply mapM_Ok in Hterms.
  eapply Forall2_impl; [exact Hterms|]. intros sc [cost v] Ht. simpl in *.
  apply bind_Ok_inv in Ht as (cost' & Hcost%getitem_Ok &
    (v' & Hv%getitem_Ok & [= <- <-])%bind_Ok_inv).
  split; [done|]. split; [done|].
  by apply dict_of_items_Some.
Qed.

Lemma objective_has_one_term_per_visit_witness :
  create_the_model data_example = Ok (vq_example, solver_example) ∧
  length (objective solver_example) = length (sources_customers data_example).
Proof.
  assert (H : create_the_model data_example = Ok (vq_example, solver_example))
    by (vm_compute; reflexivity).
  split; [exact H|]. symmetry.
  exact (Forall2_length _ _ _ (objective_has_one_term_per_visit _ _ _ H)).
Defined.

(** X8.  No handle dangles: every summand of every constraint of a
    constructed model, and the variable of every term of its objective, is
    the handle of a route, and the solver holds at that position the
    variable declared for that route. *)
Theorem handles_never_dangle (d : data) (vq : gmap route nat) (sv : solver) :
  create_the_model d = Ok (vq, sv) →
  (∀ k v, k ∈ constraints sv → v ∈ c_expr k →
          ∃ sc, vq !! sc = Some v ∧
                variables sv !! v = Some (quantity_variable sc)) ∧
  (∀ t, t ∈ objective sv →
        ∃ sc, vq !! sc = Some t.2 ∧
              variables sv !! t.2 = Some (quantity_variable sc)).
Proof.
  intros Hmodel.
  destruct (create_the_model_Ok d vq sv Hmodel)
    as (Hvq & caps & dems & fixed & terms & Hcaps & Hdems & Hfixed & Hterms & Hsv).
  assert (Hdecl : ∀ sc v, vq !! sc = Some v →
            variables sv !! v = Some (quantity_variable sc)).
  { intros sc v Hv. rewrite Hvq in Hv.
    apply (create_variables_handles_ok d) in Hv.
    rewrite create_variables_solver in Hv. by rewrite Hsv. }
  assert (Hexpr : ∀ {A} (key : A → route) (l : list A) (expr : list nat) v,
            Forall2 (λ a v, vq !! key a = Some v) l expr → v ∈ expr →
            ∃ sc, vq !! sc = Some v).
  { intros A key l expr v Hl [i Hi]%list_elem_of_lookup.
    destruct (Forall2_lookup_r _ _ _ _ _ Hl Hi) as (a & _ & Ha). eauto. }
  split.
  - intros k v Hk Hv. rewrite Hsv in Hk. simpl in Hk.
    rewrite !elem_of_app in Hk.
    assert (∃ sc, vq !! sc = Some v) as [sc Hsc]; [|eauto].
    destruct Hk as [Hk|[Hk|Hk]].
    + apply list_elem_of_lookup in Hk as [i Hi].
      destruct (Forall2_lookup_r _ _ _ _ _ Hcaps Hi) as (s & _ & Hk).
      apply production_constraint_Ok in Hk as (b & _ & _ & _ & Hl).
      by eapply (Hexpr _ (λ c, (s, c))).
    + apply list_elem_of_lookup in Hk as [i Hi].
      destruct (Forall2_lookup_r _ _ _ _ _ Hdems Hi) as (c & _ & Hk).
      apply demand_constraint_Ok in Hk as (b & _ & _ & _ & Hl).
      by eapply (Hexpr _ (λ s, (s, c))).
    + apply (elem_of_fixed d _ _ _ Hfixed) in Hk as (s & c & _ & _ & Hk).
      apply fixed_constraint_Some in Hk as (_ & q & v' & _ & _ & Hv' & ->).
      simpl in Hv. apply list_elem_of_singleton in Hv as ->. eauto.
  - intros [cost v] Ht. rewrite Hsv in Ht. simpl in *.
    unfold objective_terms in Hterms. apply mapM_Ok in Hterms.
    apply list_elem_of_lookup in Ht as [i Hi].
    destruct (Forall2_lookup_r _ _ _ _ _ Hterms Hi) as (sc & _ & Hsc).
    apply bind_Ok_inv in Hsc as (cost' & _ &
      (v' & Hv%getitem_Ok & [= _ <-])%bind_Ok_inv).
    eauto.
Qed.

Lemma handles_never_dangle_witness :
  create_the_model data_example = Ok (vq_example, solver_example) ∧
  ∃ sc, vq_example !! sc = Some 3%nat ∧
        variables solver_example !! 3%nat = Some (quantity_variable sc).
Proof.
  assert (H : create_the_model data_example = Ok (vq_example, solver_example))
    by (vm_compute; reflexivity).
  split; [exact H|].
  apply (proj1 (handles_never_dangle _ _ _ H)
           {| c_expr := [2; 3]%nat; c_sense := LE; c_bound := 650;
              c_name := "c01_production_Gou" |} 3%nat);
    [ apply (list_elem_of_lookup_2 _ 1%nat); reflexivity
    | apply (bool_decide_unpack _); vm_compute; exact I ].
Defined.

(** ** The table of quantities *)

Section Quantities.

Variable d : data.
Variable sol : solution.

Let vq := (create_variables d CreateSolver).1.

Lemma quantities_lookup (quantities : gmap route xnum) :
  dict_quantity_sources_customers d vq sol = Ok quantities →
  ∀ sc y, quantities !! sc = Some y ↔
          ∃ v, vq !! sc = Some v ∧ y = solution_value sol v ∧
               X.ltb X.zero y = true.
Proof.
  unfold dict_quantity_sources_customers.
  intros (items & Hitems%mapM_Ok & [= <-])%bind_Ok_inv.
  assert (Hitem : ∀ sc y, (sc, y) ∈ items →
            ∃ v, vq !! sc = Some v ∧ y = solution_value sol v).
  { intros sc y [i Hi]%list_elem_of_lookup.
    destruct (Forall2_lookup_r _ _ _ _ _ Hitems Hi) as (sc' & _ & Hsc').
    apply bind_Ok_inv in Hsc' as (v & Hv%getitem_Ok & [= <- <-]). eauto. }
  intros sc y. split.
  - intros [Hpos Hin]%dict_of_items_Some%list_elem_of_filter.
    destruct (Hitem sc y Hin) as (v & Hv & ->). eauto.
  - intros (v & Hv & -> & Hpos).
    assert (Hin : (sc, solution_value sol v)
                  ∈ filter (λ it, X.ltb X.zero it.2 = true) items).
    { apply list_elem_of_filter. split; [done|].
      assert (Hsc : sc ∈ sources_customers d).
      { apply (elem_of_list_to_set (C := gset route)).
        rewrite <- create_variables_dom. apply elem_of_dom. eauto. }
      apply list_elem_of_lookup in Hsc as [i Hi].
      destruct (Forall2_lookup_l _ _ _ _ _ Hitems Hi) as (it & Hit & Hsc).
      rewrite (proj2 (getitem_Ok _ _ _) Hv), bind_Ok in Hsc.
      injection Hsc as <-. by eapply list_elem_of_lookup_2. }
    match goal with
    | |- ?m !! sc = _ => destruct (m !! sc) as [y'|] eqn:Hy'
    end.
    + apply dict_of_items_Some, list_elem_of_filter in Hy' as [_ Hy'].
      destruct (Hitem sc y' Hy') as (v' & Hv' & ->).
      rewrite Hv in Hv'. by injection Hv' as <-.
    + apply dict_of_items_None in Hy'. exfalso. apply Hy'.
      apply list_elem_of_fmap. by exists (sc, solution_value sol v).
Qed.

End Quantities.

(** X9.  For a constructed model the table of quantities is computed
    without error, and it lists a route exactly when the route has a
    variable whose solution value is above zero, with that value. *)
Theorem quantities_are_the_positive_flows (d : data) (vq : gmap route nat)
    (sv : solver) (sol : solution) :
  create_the_model d = Ok (vq, sv) →
  ∃ quantities,
    dict_quantity_sources_customers d vq sol = Ok quantities ∧
    ∀ sc y, quantities !! sc = Some y ↔
            ∃ v, vq !! sc = Some v ∧ y = solution_value sol v ∧
                 X.ltb X.zero y = true.
Proof.
  intros [-> _]%create_the_model_Ok.
  destruct (dict_quantity_defined d sol) as [quantities Hq].
  exists quantities. split; [done|]. by apply quantities_lookup.
Qed.

Lemma quantities_are_the_positive_flows_witness :
  create_the_model data_example = Ok (vq_example, solver_example) ∧
  ∃ quantities,
    dict_quantity_sources_customers data_example vq_example sol_example
    = Ok quantities ∧
    quantities !! ("Gou", "Ams") = Some (Fin 499).
Proof.
  assert (H : create_the_model data_example = Ok (vq_example, solver_example))
    by (vm_compute; reflexivity).
  split; [exact H|].
  destruct (quantities_are_the_positive_flows _ _ solver_example sol_example H)
    as (quantities & Hq & Hlookup).
  exists quantities. split; [exact Hq|].
  apply Hlookup. exists 2%nat. repeat split; vm_compute; reflexivity.
Defined.

(** ** Binding rows *)

(** X10.  A row of the constraint table whose activity is finite is
    selected as binding exactly when the solver holds no upper bound for
    the constraint (plus infinity) or the upper bound equals the activity;
    so a constraint without upper bound is always selected, whatever its
    activity. *)
Theorem binding_rows_meet_their_bound (sv : solver) (sol : solution)
    (rows : list constraint_row) (i : nat) (row : constraint_row) (y : Q) :
  list_sensibility_analysis_constraints sv sol = Ok rows →
  rows !! i = Some row → activities sol !! i = Some (Fin y) →
  (row ∈ binding rows ↔
   ub sol i = PInf ∨ ∃ u, ub sol i = Fin u ∧ (u == y)%Q).
Proof.
  intros Hrows Hrow Hy.
  destruct (proj2 (constraint_rows_lookup sol sv rows Hrows) i row Hrow)
    as (k & a & _ & Ha & Heq).
  rewrite Hy in Ha. injection Ha as <-. subst row.
  rewrite elem_of_binding.
  assert (Hin : {| Constraint := c_name k; Slack := slack sol i (Fin y);
                   Shadow_price := dual_value sol i |} ∈ rows)
    by by eapply list_elem_of_lookup_2.
  simpl Slack.
  assert (Hiff : X.eqb (slack sol i (Fin y)) (Fin 0) = true ↔
                 ub sol i = PInf ∨ ∃ u, ub sol i = Fin u ∧ (u == y)%Q).
  { rewrite slack_cases. destruct (ub sol i) as [u| | |]; simpl.
    - rewrite Qeq_bool_iff. split.
      + intros Hzero. right. exists u. split; [done|].
        apply Qplus_inj_r with (z := (- y)%Q). rewrite Qplus_opp_r. exact Hzero.
      + intros [|(u' & [= <-] & Hu)]; [done|]. rewrite Hu. apply Qplus_opp_r.
    - split; [by left | done].
    - split; [done|]. by intros [|(? & ? & _)].
    - split; [done|]. by intros [|(? & ? & _)]. }
  rewrite <- Hiff. split; [by intros [_ ?] | by intros ?].
Qed.

Lemma binding_rows_meet_their_bound_witness :
  {| Constraint := "c02_demand_Ams"; Slack := Fin 0; Shadow_price := Fin 2.5 |}
  ∈ binding
      [ {| Constraint := "c01_production_Arn"; Slack := Fin 349;
           Shadow_price := Fin 0 |};
        {| Constraint := "c01_production_Gou"; Slack := Fin 26;
           Shadow_price := Fin (-0.004) |};
        {| Constraint := "c02_demand_Ams"; Slack := Fin 0;
           Shadow_price := Fin 2.5 |};
        {| Constraint := "c02_demand_Ber"; Slack := Fin 0;
           Shadow_price := Fin 2.7 |};
        {| Constraint := "c02_demand_Lon"; Slack := Fin 0;
           Shadow_price := Fin 2.5 |};
        {| Constraint := "c03_fixed_Arn_Ams"; Slack := Fin 0;
           Shadow_price := Fin 0.6 |} ].
Proof.
  apply (binding_rows_meet_their_bound solver_example sol_example _ 2%nat _ 500);
    [vm_compute; reflexivity | reflexivity | reflexivity | by left].
Defined.

(** ** The conclusions on the variables *)

(** X11.  For a constructed model whose location codes have three
    characters, the conclusions on the variables are the sentences of the
    variables of the solver whose solution value equals zero, and the
    sentence of a variable names the source and the customer of the visit
    that declared it, worded by the sign of its rounded reduced cost. *)
Theorem variable_conclusions_name_the_routes (d : data)
    (vq : gmap route nat) (sv : solver) (sol : solution) (o : output) :
  create_the_model d = Ok (vq, sv) → three_character_codes d →
  (o ∈ variable_conclusions sv sol ↔
   ∃ i s c, sources_customers d !! i = Some (s, c) ∧
            X.eqb (solution_value sol i) X.zero = true ∧
            o = variable_sentence s c
                  (classify_by_sign (X.round2 (reduced_cost sol i)))).
Proof.
  intros (_ & caps & dems & fixed & terms & _ & _ & _ & _ & ->)
    %create_the_model_Ok Hcodes.
  unfold variable_conclusions, at_zero, list_sensibility_analysis_variables.
  simpl variables. rewrite elem_of_concat. split.
  - intros (l & Ho & Hl). apply list_elem_of_In, in_map_iff in Hl
      as (row & <- & Hrow%list_elem_of_In).
    apply list_elem_of_filter in Hrow as [Hzero Hrow].
    apply elem_of_lookup_imap in Hrow as (i & x & -> & Hx).
    apply list_lookup_fmap_Some in Hx as ([s c] & -> & Hi).
    simpl in *. rewrite print_conclusions_variables_eq in Ho.
    apply list_elem_of_singleton in Ho as ->.
    change (variable_name s c) with (v_name (quantity_variable (s, c))).
    rewrite (visited_pair_decodes d Hcodes (s, c))
      by by eapply list_elem_of_lookup_2.
    by exists i, s, c.
  - intros (i & s & c & Hi & Hzero & ->).
    exists (print_conclusions_variables_sensibility_analysis
              (variable_name s c) (reduced_cost sol i)).
    split.
    + rewrite print_conclusions_variables_eq.
      change (variable_name s c) with (v_name (quantity_variable (s, c))).
      rewrite (visited_pair_decodes d Hcodes (s, c))
        by by eapply list_elem_of_lookup_2.
      apply list_elem_of_singleton. done.
    + apply list_elem_of_In, in_map_iff.
      exists {| Variable_ := variable_name s c;
                Value := solution_value sol i;
                Reduced_cost := reduced_cost sol i |}.
      split; [done|]. apply list_elem_of_In, list_elem_of_filter.
      split; [done|].
      apply (elem_of_lookup_imap_2
               (λ i v, {| Variable_ := v_name v;
                          Value := solution_value sol i;
                          Reduced_cost := reduced_cost sol i |})
               _ (quantity_variable (s, c)) i).
      by apply list_lookup_fmap_Some_2.
Qed.

Lemma variable_conclusions_name_the_routes_witness :
  create_the_model data_example = Ok (vq_example, solver_example) ∧
  variable_sentence "Arn" "Ber" (Increase (Fin 0.60))
  ∈ variable_conclusions solver_example
      {| objective_value := Fin 0;
         solution_value := λ _, Fin 0;
         reduced_cost := λ _, Fin 0.6;
         activities := [];
         ub := λ _, PInf;
         dual_value := λ _, Fin 0 |}.
Proof.
  assert (H : create_the_model data_example = Ok (vq_example, solver_example))
    by (vm_compute; reflexivity).
  split; [exact H|].
  apply (variable_conclusions_name_the_routes data_example vq_example
           solver_example _ _ H);
    [apply (bool_decide_unpack _); vm_compute; exact I|].
  exists 1%nat, "Arn", "Ber". repeat split; vm_compute; reflexivity.
Defined.

(** ** The conclusions on the constraints of a model *)

Section LongCodes.

(** [(p + c)[-3:]] is [c[-3:]] when [c] has at least three characters. *)
Lemma slice_last3_long (p c : string) :
  (3 ≤ String.length c)%nat →
  PyStr.slice (p +:+ c) (Some (-3)) None = PyStr.slice c (Some (-3)) None.
Proof.
  intros Hc. unfold PyStr.slice, PyStr.adjust. simpl default.
  rewrite length_append.
  replace (-3 <? 0) with true by done.
  destruct (Z.ltb_spec (Z.of_nat (String.length p + String.length c)) 0)
    as [?|_]; [lia|].
  destruct (Z.ltb_spec (Z.of_nat (String.length c)) 0) as [?|_]; [lia|].
  rewrite !Z.max_l, !Z.min_id by lia.
  replace (Z.to_nat (-3 + Z.of_nat (String.length p + String.length c)))
    with (String.length p + (String.length c - 3))%nat by lia.
  replace (Z.to_nat (-3 + Z.of_nat (String.length c)))
    with (String.length c - 3)%nat by lia.
  rewrite substring_skip. f_equal. lia.
Qed.

Lemma slice_last3_sep_long (p s c : string) :
  (3 ≤ String.length c)%nat →
  PyStr.slice (p +:+ s +:+ "_" +:+ c) (Some (-3)) None
  = PyStr.slice c (Some (-3)) None.
Proof.
  intros Hc.
  rewrite <- (append_assoc s "_" c), <- (append_assoc p (s +:+ "_") c).
  by apply slice_last3_long.
Qed.

End LongCodes.

(** X12.  The location decoded from the name of a constraint is made of the
    last three characters of the location code, whenever the code has at
    least three: a longer code is cut to its last three characters, so that
    codes with the same last three characters decode to the same
    location. *)
Theorem locations_are_last_three_characters (s c : string) :
  (3 ≤ String.length s)%nat → (3 ≤ String.length c)%nat →
  decode_constraint_name (production_name s)
  = Ok (1, PyStr.slice s (Some (-3)) None) ∧
  decode_constraint_name (demand_name c)
  = Ok (2, PyStr.slice c (Some (-3)) None) ∧
  decode_constraint_name (fixed_name s c)
  = Ok (3, PyStr.slice c (Some (-3)) None) ∧
  (decode_variable_name (variable_name s c)).2
  = PyStr.slice c (Some (-3)) None.
Proof.
  intros Hs Hc.
  unfold decode_constraint_name, decode_variable_name,
    production_name, demand_name, fixed_name, variable_name.
  rewrite !slice_2_3_append, !slice_last3_long, !slice_last3_sep_long by done.
  done.
Qed.

Lemma locations_are_last_three_characters_witness :
  decode_constraint_name (production_name "Paris") = Ok (1, "ris") ∧
  decode_constraint_name (demand_name "Tunis") = Ok (2, "nis").
Proof.
  destruct (locations_are_last_three_characters "Paris" "Tunis")
    as (Hp & Hd & _); [simpl; lia | simpl; lia |].
  split; [exact Hp | exact Hd].
Defined.

(** X13.  On the names that the construction gives, with codes of three
    characters: the capacity constraint of a source of the list is worded
    "available in" the source; the demand constraint of a customer is
    worded "supply at" the customer when the customer's code is not in the
    list of sources, and "available in" the customer when it is. *)
Theorem constructed_names_are_worded_by_membership (s c : string)
    (sp : xnum) (sources : list string) :
  String.length s = 3%nat → String.length c = 3%nat →
  (s ∈ sources →
   print_conclusions_constraints_sensibility_analysis
     (production_name s) sp sources
   = Ok [constraint_sentence "available in" s
           (classify_by_sign (X.round2 sp))]) ∧
  (c ∉ sources →
   print_conclusions_constraints_sensibility_analysis
     (demand_name c) sp sources
   = Ok [constraint_sentence "supply at" c
           (classify_by_sign (X.round2 sp))]) ∧
  (c ∈ sources →
   print_conclusions_constraints_sensibility_analysis
     (demand_name c) sp sources
   = Ok [constraint_sentence "available in" c
           (classify_by_sign (X.round2 sp))]).
Proof.
  intros Hs Hc.
  rewrite !print_conclusions_constraints_eq,
    (decode_production_name s Hs), (decode_demand_name c Hc), !bind_Ok.
  simpl. unfold side_of. split; [|split].
  - intros Hin%contains_true. by rewrite Hin.
  - intros Hout. destruct (PyStr.contains sources c) eqn:Hin; [|done].
    by apply contains_true in Hin.
  - intros Hin%contains_true. by rewrite Hin.
Qed.

Lemma constructed_names_are_worded_by_membership_witness :
  print_conclusions_constraints_sensibility_analysis
    (demand_name "Arn") (Fin 2.5) ["Arn"; "Gou"]
  = Ok [Print [PStr "The total transportation cost would be increased in";
               PNum (Fin 2.50);
               PStr "euros for each additional ton available in";
               PStr "Arn"]].
Proof.
  apply (constructed_names_are_worded_by_membership "Gou" "Arn" (Fin 2.5)
           ["Arn"; "Gou"]);
    [reflexivity | reflexivity | apply (bool_decide_unpack _); vm_compute; exact I].
Defined.

(** ** What the program can raise *)

Section Errors.

Lemma mapM_Raise {A B} (f : A → result B) (l : list A) (e : exn) :
  mapM f l = Raise e → ∃ x, x ∈ l ∧ f x = Raise e.
Proof.
  induction l as [|x l IH]; [done|]. rewrite mapM_cons.
  destruct (f x) as [y|e'] eqn:Hx.
  - rewrite bind_Ok. destruct (mapM f l) as [k|e'']; [done|].
    intros [= <-]. destruct IH as (x' & Hx' & Hr); [done|].
    exists x'. split; [by right | done].
  - intros [= <-]. exists x. split; [left | done].
Qed.

Lemma constraint_rows_Raise (sv : solver) (sol : solution) (e : exn) :
  list_sensibility_analysis_constraints sv sol = Raise e →
  e = IndexError ∧ (length (activities sol) < length (constraints sv))%nat.
Proof.
  intros Hraise. split.
  - apply mapM_Raise in Hraise as ([i k] & _ & Hik). simpl in Hik.
    unfold list_getitem in Hik. destruct (activities sol !! i); [done|].
    by injection Hik as <-.
  - destruct (decide (length (constraints sv) ≤ length (activities sol))%nat)
      as [Hlen|Hlen]; [|lia].
    destruct (constraint_rows_defined sol sv Hlen) as [rows Hrows]. congruence.
Qed.

End Errors.

Section Outcome.

Variable d : data.
Variable sol : solution.

(** The dict of quantities is empty exactly when no variable has a value
    above zero. *)
Lemma quantities_empty (quantities : gmap route xnum) :
  dict_quantity_sources_customers d (create_variables d CreateSolver).1 sol
  = Ok quantities →
  quantities = ∅ ↔
  ∀ sc v, (create_variables d CreateSolver).1 !! sc = Some v →
          X.ltb X.zero (solution_value sol v) = false.
Proof.
  intros Hq. pose proof (quantities_lookup d sol quantities Hq) as Hlookup.
  split.
  - intros -> sc v Hv.
    destruct (X.ltb X.zero (solution_value sol v)) eqn:Hpos; [|done].
    assert (Hin : (∅ : gmap route xnum) !! sc = Some (solution_value sol v))
      by (apply Hlookup; eauto).
    by rewrite lookup_empty in Hin.
  - intros Hnone. apply map_empty. intros sc.
    destruct (quantities !! sc) as [y|] eqn:Hy; [|done].
    apply Hlookup in Hy as (v & Hv & -> & Hpos).
    rewrite (Hnone sc v Hv) in Hpos. done.
Qed.

(** A model with a variable has a constraint. *)
Lemma constructed_with_variable (vq : gmap route nat) (sv : solver)
    (sc : route) (v : nat) :
  create_the_model d = Ok (vq, sv) → vq !! sc = Some v →
  constraints sv ≠ [] ∧ variables sv ≠ [].
Proof.
  intros (-> & caps & dems & fixed & terms & Hcaps & _ & _ & _ & ->)
    %create_the_model_Ok Hv.
  assert (Hsc : sc ∈ sources_customers d).
  { apply (elem_of_list_to_set (C := gset route)).
    rewrite <- create_variables_dom. apply elem_of_dom. eauto. }
  simpl. split.
  - destruct sc as [s c].
    apply elem_of_sources_customers in Hsc as ([i Hi]%list_elem_of_lookup & _).
    destruct (Forall2_lookup_l _ _ _ _ _ Hcaps Hi) as (k & Hk & _).
    destruct caps; [done | discriminate].
  - destruct (sources_customers d); [by apply not_elem_of_nil in Hsc | done].
Qed.

(** What the report gives on an optimal or feasible status. *)
Lemma print_results_outcome (vq : gmap route nat) (sv : solver) (st : status) :
  create_the_model d = Ok (vq, sv) →
  ((∀ sc v, vq !! sc = Some v →
            X.ltb X.zero (solution_value sol v) = false) →
   print_results d vq sv sol st = Raise TypeError) ∧
  ((∃ sc v, vq !! sc = Some v ∧ X.ltb X.zero (solution_value sol v) = true) →
   ((length (activities sol) < length (constraints sv))%nat →
    print_results d vq sv sol st = Raise IndexError) ∧
   ((length (constraints sv) ≤ length (activities sol))%nat →
    ∃ quantities crows cconcl,
      dict_quantity_sources_customers d vq sol = Ok quantities ∧
      list_sensibility_analysis_constraints sv sol = Ok crows ∧
      mapM (constraint_conclusion d) (binding crows) = Ok cconcl ∧
      print_results d vq sv sol st
      = Ok (report_head (if decide (st = OPTIMAL) then "Optimal"
                         else "Feasible, but not optimal") sol quantities crows
            ++ concat cconcl
            ++ report_middle (list_sensibility_analysis_variables sv sol)
            ++ variable_conclusions sv sol
            ++ [Print [PStr newline]]))).
Proof.
  intros Hmodel.
  destruct (create_the_model_Ok d vq sv Hmodel) as [Hvq _].
  destruct (dict_quantity_defined d sol) as [quantities Hq].
  pose proof (quantities_empty quantities Hq) as Hempty.
  rewrite <- Hvq in Hq, Hempty.
  split.
  - intros Hnone%Hempty. unfold print_results.
    rewrite Hq, bind_Ok. unfold from_tuples.
    by destruct (decide (quantities = ∅)).
  - intros (sc & v & Hv & Hpos).
    assert (Hne : quantities ≠ ∅).
    { intros Hnone. rewrite (proj1 Hempty Hnone sc v Hv) in Hpos. done. }
    destruct (constructed_with_variable vq sv sc v Hmodel Hv) as [Hcne Hvne].
    split.
    + intros Hshort. unfold print_results.
      rewrite Hq, bind_Ok, (proj2 (from_tuples_Ok _) Hne), bind_Ok.
      destruct (list_sensibility_analysis_constraints sv sol)
        as [crows|e] eqn:Hrows.
      * apply constraint_rows_lookup in Hrows as [Hlen Hrows].
        destruct (constraints sv) as [|k ks] eqn:Hks; [done|].
        assert (Hlast : is_Some (crows !! length ks)).
        { apply lookup_lt_is_Some. simpl in Hlen. lia. }
        destruct Hlast as [row Hrow].
        destruct (Hrows _ _ Hrow) as (_ & a & _ & Ha%lookup_lt_Some & _).
        simpl in Hshort. lia.
      * by apply constraint_rows_Raise in Hrows as [-> _].
    + intros Hlen.
      destruct (constraint_rows_defined sol sv Hlen) as [crows Hrows].
      destruct (conclusions_defined d sol vq sv crows Hmodel Hrows)
        as [cconcl Hconcl].
      exists quantities, crows, cconcl. do 3 (split; [done|]).
      apply print_results_Ok. exists quantities, crows, cconcl.
      split; [done|]. split; [done|]. split; [done|]. split.
      { apply constraint_rows_lookup in Hrows as [Hl _].
        intros ->. destruct (constraints sv); [done | discriminate]. }
      split; [done|]. split; [|done].
      unfold list_sensibility_analysis_variables.
      intros Hnil. apply (f_equal length) in Hnil.
      rewrite length_imap in Hnil. by destruct (variables sv).
Qed.

End Outcome.

(** X14.  For an input whose numbers are within the range of doubles: the
    program raises [KeyError], before the engine is called, when a lookup
    of the construction is undefined, whatever the engine; otherwise it
    raises only on an optimal or feasible status, and then [TypeError] when
    no variable has a solution value above zero, or [IndexError] when one
    has and the engine returns fewer activities than the model has
    constraints.  In particular [int] never fails on the name of a
    constraint of the model. *)
Theorem program_errors (Solve : solver → status * solution) (d : data) :
  numbers_in_double_range d →
  (¬ lookups_defined d →
   solve_problem_using_ortools_linear_solver Solve d = Raise KeyError) ∧
  (∀ e, solve_problem_using_ortools_linear_solver Solve d = Raise e →
        (e = KeyError ∧ ¬ lookups_defined d) ∨
        ∃ vq sv,
          create_the_model d = Ok (vq, sv) ∧
          ((Solve sv).1 = OPTIMAL ∨ (Solve sv).1 = FEASIBLE) ∧
          ((e = TypeError ∧
            ∀ sc v, vq !! sc = Some v →
                    X.ltb X.zero (solution_value (Solve sv).2 v) = false) ∨
           (e = IndexError ∧
            (∃ sc v, vq !! sc = Some v ∧
                     X.ltb X.zero (solution_value (Solve sv).2 v) = true) ∧
            (length (activities (Solve sv).2)
             < length (constraints sv))%nat))).
Proof.
  intros _. unfold solve_problem_using_ortools_linear_solver. split.
  - intros Hundef. destruct (create_the_model d) as [[vq sv]|e] eqn:Hmodel.
    + by apply create_the_model_Ok_defined in Hmodel.
    + by apply create_the_model_Raise in Hmodel as [_ ->].
  - intros e. destruct (create_the_model d) as [[vq sv]|e'] eqn:Hmodel.
    + rewrite bind_Ok. destruct (Solve sv) as [st sol] eqn:HSolve.
      unfold print_report. intros Hraise. right. exists vq, sv.
      rewrite HSolve. simpl.
      destruct (bool_decide (st ≠ FEASIBLE) && bool_decide (st ≠ OPTIMAL))
        eqn:Hst; [done|].
      assert (Hsuccess : st = OPTIMAL ∨ st = FEASIBLE).
      { destruct st; try (by left); try (by right); done. }
      split; [done|]. split; [done|].
      destruct (print_results_outcome d sol vq sv st Hmodel) as [Hidle Hflow].
      destruct (create_the_model_Ok d vq sv Hmodel) as [Hvq _].
      destruct (dict_quantity_defined d sol) as [quantities Hq].
      pose proof (quantities_empty d sol quantities Hq) as Hempty.
      pose proof (quantities_lookup d sol quantities Hq) as Hlookup.
      rewrite <- Hvq in Hempty, Hlookup.
      destruct (decide (quantities = ∅)) as [Hnone|Hsome].
      * left. pose proof (proj1 Hempty Hnone) as Hall.
        rewrite (Hidle Hall) in Hraise. by injection Hraise as <-.
      * right. apply map_choose in Hsome as (sc & y & Hy).
        apply Hlookup in Hy as (v & Hv & -> & Hpos).
        destruct (Hflow (ex_intro _ sc (ex_intro _ v (conj Hv Hpos))))
          as [Hshort Hlong].
        destruct (decide (length (constraints sv) ≤ length (activities sol))%nat)
          as [Hlen|Hlen].
        -- destruct (Hlong Hlen) as (? & ? & ? & _ & _ & _ & Hok). congruence.
        -- rewrite Hshort in Hraise by lia. injection Hraise as <-.
           split; [done|]. split; [eauto | lia].
    + intros [= <-]. left.
      apply create_the_model_Raise in Hmodel as [? ->]. done.
Qed.

Lemma program_errors_witness :
  solve_problem_using_ortools_linear_solver
    (λ _, (OPTIMAL, sol_example)) data_unfixed = Raise KeyError.
Proof.
  apply (program_errors (λ _, (OPTIMAL, sol_example)) data_unfixed);
    apply (bool_decide_unpack _); vm_compute; exact I.
Defined.

(** ** The status and the report *)

(** X18.  For an input whose numbers are within the range of doubles, once
    the model is constructed and the engine has answered: on a status that
    is neither optimal nor feasible the program prints the failure message
    and nothing else, and raises nothing; on an optimal or feasible status
    it raises [TypeError] when no variable has a solution value above zero,
    and when one has, with an activity returned for each constraint, it
    prints the whole report (status, objective value, quantities, both
    tables and their conclusions) and raises nothing, with the status text
    "Optimal" for the one status and the different text "Feasible, but not
    optimal" for the other. *)
Theorem report_follows_the_status (Solve : solver → status * solution)
    (d : data) (vq : gmap route nat) (sv : solver) (st : status)
    (sol : solution) :
  numbers_in_double_range d →
  create_the_model d = Ok (vq, sv) → Solve sv = (st, sol) →
  (st ≠ OPTIMAL → st ≠ FEASIBLE →
   solve_problem_using_ortools_linear_solver Solve d
   = Ok [Print [PStr "The solver could not solve the problem."]]) ∧
  (st = OPTIMAL ∨ st = FEASIBLE →
   ((∀ sc v, vq !! sc = Some v →
             X.ltb X.zero (solution_value sol v) = false) →
    solve_problem_using_ortools_linear_solver Solve d = Raise TypeError) ∧
   ((∃ sc v, vq !! sc = Some v ∧
             X.ltb X.zero (solution_value sol v) = true) →
    (length (constraints sv) ≤ length (activities sol))%nat →
    ∃ quantities crows cconcl,
      dict_quantity_sources_customers d vq sol = Ok quantities ∧
      list_sensibility_analysis_constraints sv sol = Ok crows ∧
      mapM (constraint_conclusion d) (binding crows) = Ok cconcl ∧
      solve_problem_using_ortools_linear_solver Solve d
      = Ok (report_head (match st with
                         | OPTIMAL => "Optimal"
                         | _ => "Feasible, but not optimal"
                         end) sol quantities crows
            ++ concat cconcl
            ++ report_middle (list_sensibility_analysis_variables sv sol)
            ++ variable_conclusions sv sol
            ++ [Print [PStr newline]]))) ∧
  "Optimal" ≠ "Feasible, but not optimal".
Proof.
  intros _ Hmodel HSolve.
  assert (Hrun : solve_problem_using_ortools_linear_solver Solve d
                 = print_report d vq sv sol st).
  { unfold solve_problem_using_ortools_linear_solver.
    by rewrite Hmodel, bind_Ok, HSolve. }
  rewrite Hrun. unfold print_report. split; [|split; [|done]].
  - intros Hopt Hfeas.
    by rewrite !bool_decide_eq_true_2.
  - intros Hst.
    replace (bool_decide (st ≠ FEASIBLE) && bool_decide (st ≠ OPTIMAL))
      with false by (destruct Hst as [-> | ->]; reflexivity).
    destruct (print_results_outcome d sol vq sv st Hmodel) as [Hidle Hflow].
    split; [exact Hidle|].
    intros Hpos Hlen. destruct (Hflow Hpos) as [_ Hlong].
    destruct (Hlong Hlen) as (quantities & crows & cconcl & Hq & Hrows & Hconcl & Hok).
    exists quantities, crows, cconcl. do 3 (split; [done|]).
    rewrite Hok. by destruct st.
Qed.

Lemma report_follows_the_status_witness :
  solve_problem_using_ortools_linear_solver
    (λ _, (INFEASIBLE, sol_example)) data_example
  = Ok [Print [PStr "The solver could not solve the problem."]] ∧
  solve_problem_using_ortools_linear_solver
    (λ _, (OPTIMAL, sol_idle)) data_idle = Raise TypeError ∧
  ∃ quantities crows cconcl,
    dict_quantity_sources_customers data_example vq_example sol_example
    = Ok quantities ∧
    list_sensibility_analysis_constraints solver_example sol_example
    = Ok crows ∧
    mapM (constraint_conclusion data_example) (binding crows) = Ok cconcl ∧
    solve_problem_using_ortools_linear_solver
      (λ _, (FEASIBLE, sol_example)) data_example
    = Ok (report_head "Feasible, but not optimal" sol_example quantities crows
          ++ concat cconcl
          ++ report_middle
               (list_sensibility_analysis_variables solver_example sol_example)
          ++ variable_conclusions solver_example sol_example
          ++ [Print [PStr newline]]).
Proof.
  assert (H : create_the_model data_example = Ok (vq_example, solver_example))
    by (vm_compute; reflexivity).
  assert (Hrange : numbers_in_double_range data_example)
    by (apply (bool_decide_unpack _); vm_compute; exact I).
  split; [|split].
  - apply (report_follows_the_status (λ _, (INFEASIBLE, sol_example))
             data_example vq_example solver_example INFEASIBLE sol_example);
      [exact Hrange | exact H | reflexivity | discriminate | discriminate].
  - refine (proj1 (proj1 (proj2 (report_follows_the_status
              (λ _, (OPTIMAL, sol_idle)) data_idle
              {[ ("Arn", "Ams") := 0%nat ]} _ OPTIMAL sol_idle _ _ eq_refl))
              (or_introl eq_refl)) _).
    + apply (bool_decide_unpack _); vm_compute; exact I.
    + vm_compute; reflexivity.
    + intros sc v _. reflexivity.
  - apply (report_follows_the_status (λ _, (FEASIBLE, sol_example))
             data_example vq_example solver_example FEASIBLE sol_example);
      [exact Hrange | exact H | reflexivity | by right
      | exists ("Gou", "Ams"), 2%nat; split; vm_compute; reflexivity
      | vm_compute; lia].
Defined.

(** ** The thresholds of the wording *)

(** X15.  The wording of a finite price changes at half a hundredth: a
    price above 0.005 is worded as an increase by its rounded value, which
    is at least 0.01; a price below -0.005 as a reduction by the absolute
    value of its rounded value, at least 0.01; a price from -0.005 to 0.005
    as no change.  So no sentence announces a change of zero. *)
Theorem wording_changes_at_half_a_hundredth (name : string) (q : Q) :
  ((1 # 200 < q)%Q →
   ∃ a, (1 # 100 <= a)%Q ∧
        print_conclusions_variables_sensibility_analysis name (Fin q)
        = [variable_sentence (decode_variable_name name).1
             (decode_variable_name name).2 (Increase (Fin a))]) ∧
  ((q < -(1 # 200))%Q →
   ∃ a, (1 # 100 <= a)%Q ∧
        print_conclusions_variables_sensibility_analysis name (Fin q)
        = [variable_sentence (decode_variable_name name).1
             (decode_variable_name name).2 (Decrease (Fin a))]) ∧
  ((-(1 # 200) <= q)%Q → (q <= 1 # 200)%Q →
   print_conclusions_variables_sensibility_analysis name (Fin q)
   = [variable_sentence (decode_variable_name name).1
        (decode_variable_name name).2 Remain_equal]).
Proof.
  rewrite print_conclusions_variables_eq. split; [|split].
  - intros (a & -> & Ha)%round2_above. exists a. split; [done|].
    by rewrite classify_positive.
  - intros (a & -> & Ha)%round2_below. exists (Qabs a). split.
    + rewrite Qabs_neg.
      * apply Qopp_le_compat in Ha. by rewrite Qopp_involutive in Ha.
      * eapply Qle_trans; [exact Ha|]. done.
    + by rewrite classify_negative.
  - intros Hlo Hhi. by rewrite small_price_remains_equal.
Qed.

(** ** An empty list of sources *)

(** X16.  With an empty list of sources the construction consults neither
    table of routes: it completes as soon as every listed customer has a
    demand, whatever the tables hold, and the model has no variable, an
    empty objective, and for each customer the row with an empty left-hand
    side that the solver keeps for the bool [0 >= demand]: both bounds 0
    when the demand is not above zero, both bounds 1 when it is. *)
Theorem no_source_no_variable (d : data) :
  data_sSources d = [] →
  Forall (λ c, is_Some (data_pCustomerDemand d !! c)) (data_sCustomers d) →
  ∃ sv,
    create_the_model d = Ok (∅, sv) ∧
    variables sv = [] ∧ objective sv = [] ∧
    Forall2 (λ c k, ∃ q, data_pCustomerDemand d !! c = Some q ∧
                         k = {| c_expr := []; c_sense := EQ;
                                c_bound := if Qle_bool q 0 then 0 else 1;
                                c_name := demand_name c |})
      (data_sCustomers d) (constraints sv).
Proof.
  intros Hs Hdem.
  assert (Hvisit : sources_customers d = []).
  { unfold sources_customers. by rewrite Hs. }
  assert (Hvq : (create_variables d CreateSolver).1 = ∅).
  { unfold create_variables. by rewrite Hvisit. }
  assert (Hdef : lookups_defined d).
  { unfold lookups_defined. rewrite Hs, Hvisit. by repeat split. }
  destruct (create_the_model_defined d Hdef) as [sv Hmodel].
  rewrite Hvq in Hmodel. exists sv. split; [exact Hmodel|].
  destruct (create_the_model_Ok d ∅ sv Hmodel)
    as (_ & caps & dems & fixed & terms & Hcaps & Hdems & Hfixed & Hterms & ->).
  rewrite Hs in Hcaps, Hfixed.
  apply Forall2_nil_inv_l in Hcaps as ->.
  apply Forall2_nil_inv_l in Hfixed as ->.
  unfold objective_terms in Hterms. rewrite Hvisit in Hterms.
  injection Hterms as <-. simpl. rewrite app_nil_r.
  split; [by rewrite Hvisit|]. split; [done|].
  eapply Forall2_impl; [exact Hdems|]. intros c k Hk.
  pose proof (demand_constraint_Ok d _ c k Hk)
    as (q & Hname & Hcases & Hb & Hexpr).
  rewrite Hs in Hexpr. inversion Hexpr as [Hnil|]. exists q.
  split; [done|].
  destruct Hcases as [(Hne & _)|(_ & Hsense & Hbound)]; [congruence|].
  destruct k. simpl in *. congruence.
Qed.

Lemma no_source_no_variable_witness :
  ∃ sv,
    create_the_model
      {| data_sSources := []; data_sCustomers := ["Ams"];
         data_pSourceProduction := ∅;
         data_pCustomerDemand := {[ "Ams" := 5%Q ]};
         data_pTransportationCosts := [ (("Arn", "Ams"), 1%Q) ];
         data_pFixedTransportation := [] |} = Ok (∅, sv) ∧
    variables sv = [] ∧
    constraints sv = [ {| c_expr := []; c_sense := EQ; c_bound := 1;
                          c_name := "c02_demand_Ams" |} ].
Proof.
  destruct (no_source_no_variable
              {| data_sSources := []; data_sCustomers := ["Ams"];
                 data_pSourceProduction := ∅;
                 data_pCustomerDemand := {[ "Ams" := 5%Q ]};
                 data_pTransportationCosts := [ (("Arn", "Ams"), 1%Q) ];
                 data_pFixedTransportation := [] |})
    as (sv & Hmodel & Hvars & _ & Hrows);
    [reflexivity | apply (bool_decide_unpack _); vm_compute; exact I |].
  exists sv. split; [exact Hmodel|]. split; [exact Hvars|].
  simpl in Hrows.
  apply Forall2_cons_inv_l in Hrows
    as (k & ks & (q & Hq & ->) & ->%Forall2_nil_inv_l & ->).
  vm_compute in Hq. by injection Hq as <-.
Defined.

(** ** How many conclusions on the constraints *)

Section CountConclusions.

Variable d : data.

Lemma mapM_app_Ok {A B} (f : A → result B) (l1 l2 : list A) (k : list B) :
  mapM f (l1 ++ l2) = Ok k →
  ∃ k1 k2, mapM f l1 = Ok k1 ∧ mapM f l2 = Ok k2 ∧ k = k1 ++ k2.
Proof.
  intros (k1 & k2 & H1 & H2 & ->)%mapM_Ok%Forall2_app_inv_l.
  exists k1, k2. by rewrite !mapM_Ok.
Qed.

(** Rows whose names carry an ordinal of at most 2 get one sentence
    each. *)
Lemma conclusions_one_each (rows : list constraint_row)
    (concl : list (list output)) :
  Forall (λ row, ∃ n loc, decode_constraint_name (Constraint row) = Ok (n, loc)
                          ∧ n <= 2) rows →
  mapM (constraint_conclusion d) rows = Ok concl →
  length (concat concl) = length rows.
Proof.
  intros Hrows Hconcl%mapM_Ok. induction Hconcl as [|row l rows concl Hl _ IH].
  - done.
  - apply Forall_cons in Hrows as [(n & loc & Hdec & Hn) Hrows].
    unfold constraint_conclusion in Hl.
    rewrite print_conclusions_constraints_eq, Hdec, bind_Ok in Hl. simpl in Hl.
    apply Z.leb_le in Hn. rewrite Hn in Hl. injection Hl as <-.
    simpl. by rewrite IH.
Qed.

(** Rows whose names carry the ordinal 3 get none. *)
Lemma conclusions_none (rows : list constraint_row)
    (concl : list (list output)) :
  Forall (λ row, ∃ loc, decode_constraint_name (Constraint row) = Ok (3, loc))
    rows →
  mapM (constraint_conclusion d) rows = Ok concl →
  concat concl = [].
Proof.
  intros Hrows Hconcl%mapM_Ok. induction Hconcl as [|row l rows concl Hl _ IH].
  - done.
  - apply Forall_cons in Hrows as [(loc & Hdec) Hrows].
    unfold constraint_conclusion in Hl.
    rewrite print_conclusions_constraints_eq, Hdec, bind_Ok in Hl. simpl in Hl.
    injection Hl as <-. simpl. by apply IH.
Qed.

End CountConclusions.

(** X17.  In the report on a constructed model the conclusions on the
    constraints hold exactly one sentence per binding row among the rows of
    the capacity and demand constraints, the first rows of the table, and
    no sentence for a row of a fixed-flow constraint, binding or not. *)
Theorem one_conclusion_per_binding_capacity_or_demand (d : data)
    (vq : gmap route nat) (sv : solver) (sol : solution)
    (rows : list constraint_row) (cconcl : list (list output)) :
  create_the_model d = Ok (vq, sv) →
  list_sensibility_analysis_constraints sv sol = Ok rows →
  mapM (constraint_conclusion d) (binding rows) = Ok cconcl →
  length (concat cconcl)
  = length (binding (take (length (data_sSources d)
                           + length (data_sCustomers d)) rows)).
Proof.
  intros Hmodel Hrows Hconcl.
  set (n := (length (data_sSources d) + length (data_sCustomers d))%nat).
  destruct (create_the_model_Ok d vq sv Hmodel)
    as (_ & caps & dems & fixed & terms & Hcaps & Hdems & Hfixed & _ & Hsv).
  destruct (constraint_rows_lookup sol sv rows Hrows) as [_ Hlookup].
  assert (Hn : n = length (caps ++ dems)).
  { rewrite length_app. apply Forall2_length in Hcaps, Hdems. lia. }
  assert (Hcons : constraints sv = (caps ++ dems) ++ concat fixed).
  { rewrite Hsv. simpl. by rewrite app_assoc. }
  assert (Hfirst : Forall (λ row, ∃ m loc,
              decode_constraint_name (Constraint row) = Ok (m, loc) ∧ m <= 2)
            (binding (take n rows))).
  { apply Forall_forall. intros row [Hrow _]%elem_of_binding.
    apply list_elem_of_lookup in Hrow as [i [Hi Hlt]%lookup_take_Some].
    destruct (Hlookup i row Hi) as (k & a & Hk & _ & ->). simpl.
    assert (Hin : k ∈ caps ++ dems).
    { apply (list_elem_of_lookup_2 _ i).
      rewrite <- (take_app_length' (caps ++ dems) (concat fixed) n Hn), <- Hcons.
      by apply lookup_take_Some. }
    unfold decode_constraint_name.
    apply elem_of_app in Hin as [Hin|Hin];
      apply list_elem_of_lookup in Hin as [j Hj].
    - destruct (Forall2_lookup_r _ _ _ _ _ Hcaps Hj) as (s & _ & Hs).
      apply production_constraint_Ok in Hs as (b & -> & _).
      rewrite (proj1 (constraint_number_of_names s s)), bind_Ok.
      eexists _, _. split; [done | lia].
    - destruct (Forall2_lookup_r _ _ _ _ _ Hdems Hj) as (c & _ & Hc).
      apply demand_constraint_Ok in Hc as (b & -> & _).
      rewrite (proj1 (proj2 (constraint_number_of_names c c))), bind_Ok.
      eexists _, _. split; [done | lia]. }
  assert (Hlast : Forall (λ row, ∃ loc,
              decode_constraint_name (Constraint row) = Ok (3, loc))
            (binding (drop n rows))).
  { apply Forall_forall. intros row [Hrow _]%elem_of_binding.
    apply list_elem_of_lookup in Hrow as [i Hi]. rewrite lookup_drop in Hi.
    destruct (Hlookup _ row Hi) as (k & a & Hk & _ & ->). simpl.
    assert (Hin : k ∈ concat fixed).
    { apply (list_elem_of_lookup_2 _ i).
      rewrite <- (drop_app_length' (caps ++ dems) (concat fixed) n Hn), <- Hcons.
      by rewrite lookup_drop. }
    apply (elem_of_fixed d _ _ _ Hfixed) in Hin as (s & c & _ & _ & Hin).
    apply fixed_constraint_Some in Hin as (_ & q & v & _ & _ & _ & ->). simpl.
    unfold decode_constraint_name.
    rewrite (proj2 (proj2 (constraint_number_of_names s c))), bind_Ok. eauto. }
  rewrite <- (take_drop n rows) in Hconcl.
  unfold binding in Hconcl. rewrite filter_app in Hconcl.
  apply mapM_app_Ok in Hconcl as (k1 & k2 & H1 & H2 & ->).
  rewrite concat_app, length_app.
  rewrite (conclusions_one_each d _ _ Hfirst H1).
  rewrite (conclusions_none d _ _ Hlast H2). simpl. unfold binding. lia.
Qed.

Lemma one_conclusion_per_binding_capacity_or_demand_witness :
  create_the_model data_example = Ok (vq_example, solver_example) ∧
  ∃ rows cconcl,
    list_sensibility_analysis_constraints solver_example sol_example = Ok rows ∧
    mapM (constraint_conclusion data_example) (binding rows) = Ok cconcl ∧
    length (binding rows) = 4%nat ∧
    length (concat cconcl) = 3%nat.
Proof.
  assert (H : create_the_model data_example = Ok (vq_example, solver_example))
    by (vm_compute; reflexivity).
  split; [exact H|].
  destruct (constraint_rows_defined sol_example solver_example)
    as [rows Hrows]; [vm_compute; lia|].
  destruct (conclusions_defined data_example sol_example _ _ rows H Hrows)
    as [cconcl Hconcl].
  exists rows, cconcl. split; [exact Hrows|]. split; [exact Hconcl|].
  pose proof (one_conclusion_per_binding_capacity_or_demand
                _ _ _ _ _ _ H Hrows Hconcl) as Hcount.
  assert (Hval : list_sensibility_analysis_constraints solver_example sol_example
                 = Ok rows) by exact Hrows.
  vm_compute in Hval. injection Hval as <-.
  split; [vm_compute; reflexivity|].
  rewrite Hcount. vm_compute. reflexivity.
Defined.
